(** * A shallow embedding of the transaction engine of [src/main.rs]

    The engine keeps three pre-allocated vectors indexed by raw ids:
    [transactions : Vec<f64>] of length [u32::MAX], [clients :
    Vec<Option<Client>>] of length [u16::MAX] and the bit vector
    [disbutes] of length [u32::MAX].  A vector [vec![d; n]] is modelled
    sparsely: its length, its fill value and a [gmap] of the cells written
    since.  A Rust panic (index out of bounds) is [None] in the option
    monad.

    Amounts are [f64] in the source.  The engine is written over a small
    class [Amount] of the four operations it uses; the instance [float]
    (Rocq's primitive binary64 floats, IEEE-754 round-to-nearest like
    Rust's [f64]) is the source's type, and the instance [Z] gives exact
    fixed-point amounts (e.g. in ten-thousandths). *)

From Stdlib Require Import ZArith Floats.
From stdpp Require Import base gmap strings.

Set Warnings "-inexact-float".

Class Amount (F : Type) := {
  a_zero : F;
  a_add : F -> F -> F;
  a_sub : F -> F -> F;
  a_opp : F -> F
}.

(** [f64]: [0.0f64], [+], [-] and unary [-]. *)
#[global] Instance f64_amount : Amount float := {
  a_zero := 0%float;
  a_add := PrimFloat.add;
  a_sub := PrimFloat.sub;
  a_opp := PrimFloat.opp
}.

(** Exact amounts, as a fixed-point number of ten-thousandths. *)
#[global] Instance fixed_amount : Amount Z := {
  a_zero := 0%Z;
  a_add := Z.add;
  a_sub := Z.sub;
  a_opp := Z.opp
}.

Definition u16_MAX : N := 65535.
Definition u32_MAX : N := 4294967295.

(** ** [Vec<T>] and [BitVec] created full, indexed by [usize] *)

Record RVec (A : Type) := mk_rvec {
  vlen : N;
  vfill : A;
  vcells : gmap N A
}.
Arguments mk_rvec {A}.
Arguments vlen {A}.
Arguments vfill {A}.
Arguments vcells {A}.

(** [vec![x; n]] and [BitVec::from_elem(n, x)] *)
Definition rvec_from_elem {A} (n : N) (x : A) : RVec A := mk_rvec n x ∅.

(** [v.get(i)] / [v.get_mut(i)] : [Some] in range, [None] beyond. *)
Definition rvec_get {A} (v : RVec A) (i : N) : option A :=
  if (i <? vlen v)%N then Some (default (vfill v) (vcells v !! i)) else None.

(** Writing through the reference returned by [get_mut] (in range). *)
Definition rvec_write {A} (v : RVec A) (i : N) (x : A) : RVec A :=
  mk_rvec (vlen v) (vfill v) (<[i := x]> (vcells v)).

(** [v[i] = x] and [BitVec::set(i, x)]: both panic out of range. *)
Definition rvec_index_set {A} (v : RVec A) (i : N) (x : A) : option (RVec A) :=
  if (i <? vlen v)%N then Some (rvec_write v i x) else None.

Section Engine.
Context {F : Type} `{Amount F}.

Inductive Transaction :=
| Deposit (id : N) (tx : N) (amount : F)
| Withdrawal (id : N) (tx : N) (amount : F)
| Dispute (id : N) (tx : N)
| Resolve (id : N) (tx : N)
| Chargeback (id : N) (tx : N).

Record Client := mk_client {
  cid : N;
  available : F;
  held : F;
  total : F;
  locked : bool
}.

(** [Client::new] *)
Definition client_new (id : N) : Client :=
  mk_client id a_zero a_zero a_zero false.

Record Engine := mk_engine {
  transactions : RVec F;
  clients : RVec (option Client);
  disbutes : RVec bool
}.

(** [Engine::new] *)
Definition engine_new : Engine :=
  mk_engine (rvec_from_elem u32_MAX a_zero)
            (rvec_from_elem u16_MAX None)
            (rvec_from_elem u32_MAX false).

Definition set_transactions (s : Engine) (t : RVec F) : Engine :=
  mk_engine t (clients s) (disbutes s).
Definition set_clients (s : Engine) (c : RVec (option Client)) : Engine :=
  mk_engine (transactions s) c (disbutes s).
Definition set_disbutes (s : Engine) (d : RVec bool) : Engine :=
  mk_engine (transactions s) (clients s) d.

(** Mutation of the client reached through [self.clients.get_mut(id)]. *)
Definition put_client (s : Engine) (id : N) (c : Client) : Engine :=
  set_clients s (rvec_write (clients s) id (Some c)).

(** [Engine::transaction] *)
Definition transaction (s : Engine) (id tx : N) (amount : F) : option Engine :=
  match rvec_get (clients s) id with
  | Some (Some client) =>
      if locked client then Some s
      else
        let client := mk_client (cid client) (a_add (available client) amount)
                        (held client) (a_add (total client) amount)
                        (locked client) in
        let s := put_client s id client in
        t ← rvec_index_set (transactions s) tx amount;
        Some (set_transactions s t)
  | _ =>
      let c0 := client_new id in
      let client := mk_client (cid c0) amount (held c0) amount (locked c0) in
      cs ← rvec_index_set (clients s) id (Some client);
      let s := set_clients s cs in
      t ← rvec_index_set (transactions s) tx amount;
      Some (set_transactions s t)
  end.

(** [Engine::dispute] *)
Definition dispute (s : Engine) (id tx : N) : option Engine :=
  match rvec_get (clients s) id with
  | Some (Some client) =>
      match rvec_get (transactions s) tx with
      | Some amount =>
          let client := mk_client (cid client) (a_sub (available client) amount)
                          (a_add (held client) amount) (total client)
                          (locked client) in
          let s := put_client s id client in
          d ← rvec_index_set (disbutes s) tx true;
          Some (set_disbutes s d)
      | None => Some s
      end
  | _ => Some s
  end.

(** [Engine::resolve] *)
Definition resolve (s : Engine) (id tx : N) : option Engine :=
  match rvec_get (clients s) id with
  | Some (Some client) =>
      match rvec_get (transactions s) tx with
      | Some amount =>
          match rvec_get (disbutes s) tx with
          | Some true =>
              let client := mk_client (cid client) (a_add (available client) amount)
                              (a_sub (held client) amount) (total client)
                              (locked client) in
              let s := put_client s id client in
              d ← rvec_index_set (disbutes s) tx false;
              Some (set_disbutes s d)
          | _ => Some s
          end
      | None => Some s
      end
  | _ => Some s
  end.

(** [Engine::chargeback] *)
Definition chargeback (s : Engine) (id tx : N) : option Engine :=
  match rvec_get (clients s) id with
  | Some (Some client) =>
      match rvec_get (transactions s) tx with
      | Some amount =>
          match rvec_get (disbutes s) tx with
          | Some true =>
              let client := mk_client (cid client) (available client)
                              (a_sub (held client) amount)
                              (a_sub (total client) amount) true in
              let s := put_client s id client in
              d ← rvec_index_set (disbutes s) tx false;
              Some (set_disbutes s d)
          | _ => Some s
          end
      | None => Some s
      end
  | _ => Some s
  end.

(** [Engine::handle_record] *)
Definition handle_record (s : Engine) (record : Transaction) : option Engine :=
  match record with
  | Deposit id tx amount => transaction s id tx amount
  | Withdrawal id tx amount => transaction s id tx (a_opp amount)
  | Dispute id tx => dispute s id tx
  | Resolve id tx => resolve s id tx
  | Chargeback id tx => chargeback s id tx
  end.

(** The loop of [read_file] / [from_str] over parsed records; a panic
    aborts the run. *)
Fixpoint run (s : Engine) (records : list Transaction) : option Engine :=
  match records with
  | [] => Some s
  | r :: rs => s' ← handle_record s r; run s' rs
  end.

(** [self.clients.get(id)] flattened, as in [get_client_mut]. *)
Definition get_client (s : Engine) (id : N) : option Client :=
  match rvec_get (clients s) id with
  | Some (Some c) => Some c
  | _ => None
  end.

End Engine.

Arguments Transaction : clear implicits.
Arguments Client : clear implicits.
Arguments Engine : clear implicits.

(** ** Reading records: [Engine::parse_record], [from_str] / [read_file]
    and [dump_clients]

    A csv field is a Rust [&str]: a [string] of UTF-8 bytes.  [trim] and
    [parse] are the standard library's, written out below on the field's
    Unicode scalar values. *)

(** UTF-8 decoding of the bytes of a [&str] (always well formed). *)
Definition utf8_cont (b : N) : N := N.land b 63.

Fixpoint utf8_decode (l : list N) : list N :=
  match l with
  | [] => []
  | b1 :: r1 =>
      if (b1 <? 128)%N then b1 :: utf8_decode r1 else
      match r1 with
      | [] => []
      | b2 :: r2 =>
          if (b1 <? 224)%N then
            (N.land b1 31 * 64 + utf8_cont b2)%N :: utf8_decode r2 else
          match r2 with
          | [] => []
          | b3 :: r3 =>
              if (b1 <? 240)%N then
                (N.land b1 15 * 4096 + utf8_cont b2 * 64 + utf8_cont b3)%N
                  :: utf8_decode r3 else
              match r3 with
              | [] => []
              | b4 :: r4 =>
                  (N.land b1 7 * 262144 + utf8_cont b2 * 4096
                   + utf8_cont b3 * 64 + utf8_cont b4)%N :: utf8_decode r4
              end
          end
      end
  end.

(** The characters of a field. *)
Definition chars (f : string) : list N :=
  utf8_decode (map Ascii.N_of_ascii (String.list_ascii_of_string f)).

(** [char::is_whitespace]: the Unicode property White_Space. *)
Definition is_whitespace (c : N) : bool :=
  (((9 <=? c) && (c <=? 13)) || (c =? 32) || (c =? 133) || (c =? 160)
   || (c =? 5760) || ((8192 <=? c) && (c <=? 8202)) || (c =? 8232)
   || (c =? 8233) || (c =? 8239) || (c =? 8287) || (c =? 12288))%N.

Fixpoint trim_start (cs : list N) : list N :=
  match cs with
  | [] => []
  | c :: r => if is_whitespace c then trim_start r else cs
  end.

(** [str::trim]: leading and trailing whitespace removed. *)
Definition trim (cs : list N) : list N :=
  rev (trim_start (rev (trim_start cs))).

(** The value of a run of decimal digits; [None] at a non-digit. *)
Fixpoint digits_val (acc : N) (cs : list N) : option N :=
  match cs with
  | [] => Some acc
  | c :: r =>
      if ((48 <=? c) && (c <=? 57))%N then digits_val (acc * 10 + (c - 48))%N r
      else None
  end.

(** [<uN as FromStr>::from_str] for an unsigned type whose maximum is
    [max]: empty input, a lone sign, a [-], a non-digit or a value above
    [max] is an error ([None]); one leading [+] is allowed. *)
Definition parse_uint (max : N) (cs : list N) : option N :=
  ds ← match cs with
       | [] => None
       | [c] => if ((c =? 43) || (c =? 45))%N then None else Some cs
       | c :: r => if (c =? 43)%N then Some r else Some cs
       end;
  v ← digits_val 0 ds;
  if (v <=? max)%N then Some v else None.

Section Parse.
Context {F : Type} `{Amount F}.
(** [<f64 as FromStr>::from_str] on the characters of a trimmed field. *)
Context (parse_f64 : list N -> option F).

(** [record[i].trim().parse::<uN>().unwrap()]: [None] is a panic, either
    of the index or of the [unwrap]. *)
Definition field_uint (max : N) (record : list string) (i : nat) : option N :=
  f ← record !! i; parse_uint max (trim (chars f)).

Definition field_f64 (record : list string) (i : nat) : option F :=
  f ← record !! i; parse_f64 (trim (chars f)).

(** [Engine::parse_record]: [None] is a panic, [Some None] the [None]
    returned for an unknown transaction type (after the [eprintln!]). *)
Definition parse_record (record : list string) : option (option (Transaction F)) :=
  ty ← record !! 0%nat;
  if String.eqb ty "deposit" then
    client_id ← field_uint u16_MAX record 1;
    tx ← field_uint u32_MAX record 2;
    amount ← field_f64 record 3;
    Some (Some (Deposit client_id tx amount))
  else if String.eqb ty "withdrawal" then
    client_id ← field_uint u16_MAX record 1;
    tx ← field_uint u32_MAX record 2;
    amount ← field_f64 record 3;
    Some (Some (Withdrawal client_id tx amount))
  else if String.eqb ty "dispute" then
    client_id ← field_uint u16_MAX record 1;
    tx ← field_uint u32_MAX record 2;
    Some (Some (Dispute client_id tx))
  else if String.eqb ty "resolve" then
    client_id ← field_uint u16_MAX record 1;
    tx ← field_uint u32_MAX record 2;
    Some (Some (Resolve client_id tx))
  else if String.eqb ty "chargeback" then
    client_id ← field_uint u16_MAX record 1;
    tx ← field_uint u32_MAX record 2;
    Some (Some (Chargeback client_id tx))
  else Some None.

(** The loop of [Engine::from_str] and [Engine::read_file] over the
    records the csv reader yields after the header line: [None] is a
    record that is an [Err] (an unreadable row, or one whose length
    differs from the header's), which [record?] returns at once.  The result
    is [None] on a panic, else the engine and whether [Ok(())] was
    returned. *)
Fixpoint from_str (s : Engine F) (records : list (option (list string)))
    : option (Engine F * bool) :=
  match records with
  | [] => Some (s, true)
  | None :: _ => Some (s, false)
  | Some record :: rest =>
      t ← parse_record record;
      match t with
      | None => from_str s rest
      | Some t => s' ← handle_record s t; from_str s' rest
      end
  end.

(** The transactions a list of records parses to, unknown types left
    out; [None] if a record is an error or its parse panics. *)
Fixpoint parse_all (records : list (option (list string)))
    : option (list (Transaction F)) :=
  match records with
  | [] => Some []
  | None :: _ => None
  | Some record :: rest =>
      t ← parse_record record;
      ts ← parse_all rest;
      Some (match t with None => ts | Some t => t :: ts end)
  end.

End Parse.

(** Decimal digits of a number, as [{}] prints an integer. *)
Fixpoint dec_aux (fuel : nat) (n : N) (acc : list N) : list N :=
  match fuel with
  | O => acc
  | S f =>
      let acc' := (48 + n mod 10)%N :: acc in
      if (n <? 10)%N then acc' else dec_aux f (n / 10) acc'
  end.

Definition dec (n : N) : list N := dec_aux (S (N.to_nat (N.size n))) n [].

(** A field made of ASCII characters. *)
Definition ascii_field (cs : list N) : string :=
  String.string_of_list_ascii (map Ascii.ascii_of_N cs).

Section Dump.
Context {F : Type} `{Amount F}.
(** [{:.4}] on an amount. *)
Context (fmt4 : F -> string).

(** [impl Display for Client]: ["{}, {:.4}, {:.4}, {:.4}, {}"]. *)
Definition client_display (c : Client F) : string :=
  ascii_field (dec (cid c)) +:+ ", " +:+ fmt4 (available c) +:+ ", "
  +:+ fmt4 (held c) +:+ ", " +:+ fmt4 (total c) +:+ ", "
  +:+ (if locked c then "true" else "false").

(** The elements of a vector in index order ([v.iter()]). *)
Definition rvec_to_list {A} (v : RVec A) : list A :=
  map (fun i => default (vfill v) (vcells v !! N.of_nat i))
      (seq 0 (N.to_nat (vlen v))).

(** [self.clients.iter().filter_map(|c| *c)] *)
Definition client_rows (s : Engine F) : list (Client F) :=
  omap (fun c => c) (rvec_to_list (clients s)).

(** [Engine::dump_clients]: the lines printed. *)
Definition dump_clients (s : Engine F) : list string :=
  "client, available, held, total, locked" :: map client_display (client_rows s).

End Dump.

(** Whether a Deposit or Withdrawal of [es] names client [i]. *)
Definition account_named {F} (es : list (Transaction F)) (i : N) : bool :=
  existsb (fun e => match e with
                    | Deposit j _ _ | Withdrawal j _ _ => (j =? i)%N
                    | _ => false
                    end) es.

(** [main]: [read_file] on a new engine, then [dump_clients] if it
    returned [Ok(())]; [Some None] is the [Err] returned by [?]. *)
Definition main_output {F} `{Amount F} (parse_f64 : list N -> option F)
    (fmt4 : F -> string) (records : list (option (list string)))
    : option (option (list string)) :=
  match from_str parse_f64 engine_new records with
  | None => None
  | Some (s, ok) => Some (if ok then Some (dump_clients fmt4 s) else None)
  end.

(** ** Vector facts *)

Section RVecFacts.
Context {A : Type}.
Implicit Types (v : RVec A) (x : A).

Lemma rvec_get_lt v i x : rvec_get v i = Some x -> (i < vlen v)%N.
Proof. unfold rvec_get. destruct (N.ltb_spec i (vlen v)); congruence. Qed.

Lemma rvec_get_write_eq v i x :
  (i < vlen v)%N -> rvec_get (rvec_write v i x) i = Some x.
Proof.
  intros Hi. unfold rvec_get, rvec_write; simpl.
  destruct (N.ltb_spec i (vlen v)); [|lia]. by rewrite lookup_insert_eq.
Qed.

Lemma rvec_get_write_ne v i j x :
  i <> j -> rvec_get (rvec_write v i x) j = rvec_get v j.
Proof.
  intros Hij. unfold rvec_get, rvec_write; simpl. by rewrite lookup_insert_ne.
Qed.

Lemma rvec_index_set_Some v i x v' :
  rvec_index_set v i x = Some v' -> v' = rvec_write v i x /\ (i < vlen v)%N.
Proof.
  unfold rvec_index_set. destruct (N.ltb_spec i (vlen v)); intros E; [|done].
  injection E as <-. auto.
Qed.

Lemma rvec_index_set_lt v i x :
  (i < vlen v)%N -> rvec_index_set v i x = Some (rvec_write v i x).
Proof. unfold rvec_index_set. destruct (N.ltb_spec i (vlen v)); [done|lia]. Qed.

Lemma rvec_index_set_ge v i x :
  (vlen v <= i)%N -> rvec_index_set v i x = None.
Proof. unfold rvec_index_set. destruct (N.ltb_spec i (vlen v)); [lia|done]. Qed.

Lemma rvec_write_write v i x y :
  rvec_write (rvec_write v i x) i y = rvec_write v i y.
Proof. unfold rvec_write; simpl. by rewrite insert_insert_eq. Qed.

Lemma rvec_write_len v i x : vlen (rvec_write v i x) = vlen v.
Proof. reflexivity. Qed.

End RVecFacts.

(** ** Client lookup facts *)

Section ClientFacts.
Context {F : Type} `{Amount F}.
Implicit Types (s : Engine F) (c : Client F).

Lemma get_client_lt s id c : get_client s id = Some c -> (id < vlen (clients s))%N.
Proof.
  unfold get_client. destruct (rvec_get (clients s) id) as [[c'|]|] eqn:E;
    intros; try discriminate. eapply rvec_get_lt; eauto.
Qed.

Lemma get_client_rvec s id c :
  get_client s id = Some c -> rvec_get (clients s) id = Some (Some c).
Proof.
  unfold get_client. destruct (rvec_get (clients s) id) as [[c'|]|];
    congruence.
Qed.

Lemma get_client_rvec_inv s id c :
  rvec_get (clients s) id = Some (Some c) -> get_client s id = Some c.
Proof. unfold get_client. by intros ->. Qed.

Lemma get_client_put_eq s id c c' :
  get_client s id = Some c' -> get_client (put_client s id c) id = Some c.
Proof.
  intros Hc. apply get_client_lt in Hc. unfold get_client, put_client; simpl.
  by rewrite rvec_get_write_eq.
Qed.

Lemma get_client_put_ne s id j c :
  id <> j -> get_client (put_client s id c) j = get_client s j.
Proof.
  intros Hne. unfold get_client, put_client; simpl.
  by rewrite rvec_get_write_ne.
Qed.

End ClientFacts.

Section ClientFacts2.
Context {F : Type} `{Amount F}.
Implicit Types (s : Engine F) (c : Client F).

Lemma get_client_put_inv s id j c c' :
  get_client (put_client s id c) j = Some c' ->
  (j = id /\ c' = c) \/ get_client s j = Some c'.
Proof.
  destruct (decide (id = j)) as [<-|Hne].
  - unfold get_client, put_client, rvec_get, rvec_write; simpl.
    rewrite lookup_insert_eq. destruct (id <? vlen (clients s))%N; intros E;
      [injection E as <-; auto | discriminate].
  - rewrite get_client_put_ne by done. auto.
Qed.

Lemma get_client_set_transactions s t j :
  get_client (set_transactions s t) j = get_client s j.
Proof. reflexivity. Qed.

Lemma get_client_set_disbutes s d j :
  get_client (set_disbutes s d) j = get_client s j.
Proof. reflexivity. Qed.

Lemma set_clients_write s id c :
  set_clients s (rvec_write (clients s) id (Some c)) = put_client s id c.
Proof. reflexivity. Qed.

End ClientFacts2.

Ltac client_eqs :=
  rewrite ?set_clients_write, ?get_client_set_transactions,
          ?get_client_set_disbutes in *.

(** Unfolds one engine step and splits on every branch of the source. *)
Ltac step_cases H :=
  unfold handle_record, transaction, dispute, resolve, chargeback in H;
  repeat (first [ case_match
                | match type of H with
                  | context [rvec_index_set ?v ?i ?x] =>
                      let E := fresh "E" in destruct (rvec_index_set v i x) eqn:E
                  end ];
          simpl in H; try discriminate H);
  simplify_eq/=;
  repeat match goal with
  | E : rvec_index_set _ _ _ = Some _ |- _ =>
      apply rvec_index_set_Some in E as [-> ?]
  end.

Definition balanced (c : Client Z) : Prop := total c = (available c + held c)%Z.

Definition engine_balanced (s : Engine Z) : Prop :=
  forall id c, get_client s id = Some c -> balanced c.

Lemma handle_record_balanced (s s' : Engine Z) (e : Transaction Z) :
  engine_balanced s -> handle_record s e = Some s' -> engine_balanced s'.
Proof.
  intros Hb Hs. destruct e; step_cases Hs; try assumption;
    intros j c' Hj; client_eqs;
    apply get_client_put_inv in Hj as [[-> ->]|Hj]; eauto;
    unfold balanced; simpl; try lia.
  all: apply get_client_rvec_inv in H; apply Hb in H; unfold balanced in H; lia.
Qed.

Lemma run_balanced (s s' : Engine Z) (es : list (Transaction Z)) :
  engine_balanced s -> run s es = Some s' -> engine_balanced s'.
Proof.
  revert s. induction es as [|e es IH]; intros s Hb Hr; simpl in Hr.
  - by injection Hr as <-.
  - destruct (handle_record s e) as [s1|] eqn:E; simpl in Hr; [|discriminate].
    eapply IH; [|exact Hr]. eapply handle_record_balanced; eauto.
Qed.

Lemma engine_new_no_client {F} `{Amount F} id : get_client (engine_new (F:=F)) id = None.
Proof.
  unfold get_client, engine_new, rvec_get; simpl.
  by destruct (id <? u16_MAX)%N.
Qed.

Lemma engine_new_balanced : engine_balanced engine_new.
Proof. intros id c. by rewrite engine_new_no_client. Qed.

(** Concrete inputs (f64 literals are rounded as Rust's [parse::<f64>]). *)
Definition c1_events : list (Transaction float) :=
  [Deposit 1 1 0.6%float; Deposit 1 2 0.2%float; Dispute 1 1;
   Deposit 1 3 1.1%float].

(** Claim C1 (as amended): with exact amounts, every account reachable
    from [Engine::new] by any sequence of applied events satisfies
    [total == available + held]. *)
Theorem C1_total_eq_available_plus_held_exact
    (es : list (Transaction Z)) (s : Engine Z) (id : N) (c : Client Z) :
  run engine_new es = Some s -> get_client s id = Some c ->
  total c = (available c + held c)%Z.
Proof.
  intros Hr Hc. exact (run_balanced _ _ _ engine_new_balanced Hr id c Hc).
Qed.

(** Claim C1 (as stated, on the source's [f64]): the invariant fails; after
    [c1_events] account 1 has [total = 1.9000000000000001] while
    [available + held = 1.9000000000000004]. *)
Lemma C1_f64_counterexample :
  ~ (forall (es : list (Transaction float)) (s : Engine float) (id : N)
            (c : Client float),
       run engine_new es = Some s -> get_client s id = Some c ->
       PrimFloat.eqb (total c) (PrimFloat.add (available c) (held c)) = true).
Proof.
  intros Hall.
  destruct (run engine_new c1_events) as [s|] eqn:Er; [|vm_compute in Er; discriminate].
  destruct (get_client s 1) as [c|] eqn:Ec.
  - pose proof (Hall c1_events s 1%N c Er Ec) as Hf.
    vm_compute in Er. injection Er as <-. vm_compute in Ec. injection Ec as <-.
    vm_compute in Hf. discriminate.
  - vm_compute in Er. injection Er as <-. vm_compute in Ec. discriminate.
Qed.

Definition c1_events_exact : list (Transaction Z) :=
  [Deposit 1 1 20000%Z; Withdrawal 1 2 10000%Z; Dispute 1 2].

Lemma C1_witness : exists s c,
  run engine_new c1_events_exact = Some s /\ get_client s 1 = Some c /\
  total c = (available c + held c)%Z.
Proof.
  destruct (run engine_new c1_events_exact) as [s|] eqn:E;
    [|vm_compute in E; discriminate].
  exists s.
  destruct (get_client s 1) as [c|] eqn:Ec;
    [|vm_compute in E; injection E as <-; vm_compute in Ec; discriminate].
  exists c. split; [reflexivity|split; [reflexivity|]].
  exact (C1_total_eq_available_plus_held_exact c1_events_exact s 1 c E Ec).
Defined.

(** Claim C2 (code defect): [Engine::dispute] does not look at the dispute
    flag, so a second [Dispute(1, 1)] on a transaction already disputed
    moves the amount from available to held a second time. *)
Lemma C2_double_dispute_changes_state :
  (s ← run engine_new [Deposit 1 1 2.0%float; Dispute 1 1]; get_client s 1)
    = Some (mk_client 1 0%float 2%float 2%float false) /\
  (s ← run engine_new [Deposit 1 1 2.0%float; Dispute 1 1; Dispute 1 1];
   get_client s 1)
    = Some (mk_client 1 (-2)%float 4%float 2%float false).
Proof. split; vm_compute; reflexivity. Qed.

(** Claim C3 (code defect): transaction 2 was never recorded, yet
    [Dispute(1, 2)] reads the fill value [0.0] of [transactions] as its
    amount and sets the dispute flag of transaction 2; the balances keep
    their values. *)
Lemma C3_dispute_unrecorded_tx_sets_flag :
  (s ← run engine_new [Deposit 1 1 2.0%float]; rvec_get (disbutes s) 2)
    = Some false /\
  (s ← run engine_new [Deposit 1 1 2.0%float; Dispute 1 2]; rvec_get (disbutes s) 2)
    = Some true /\
  (s ← run engine_new [Deposit 1 1 2.0%float; Dispute 1 2]; get_client s 1)
    = Some (mk_client 1 2%float 0%float 2%float false).
Proof. split; [|split]; vm_compute; reflexivity. Qed.

(** Claim C4 (code defect): the vectors have length [u16::MAX] and
    [u32::MAX], one short of the id spaces: a deposit for client
    [u16::MAX] panics on [self.clients[id]], a deposit with transaction id
    [u32::MAX] panics on [self.transactions[tx]], and the lookups of the
    amount and of the dispute flag at [u32::MAX] find nothing. *)
Theorem C4_max_ids_out_of_bounds {F : Type} `{Amount F} (tx : N) (a : F) :
  handle_record engine_new (Deposit u16_MAX tx a) = None /\
  handle_record engine_new (Withdrawal u16_MAX tx a) = None /\
  handle_record engine_new (Deposit 1 u32_MAX a) = None /\
  rvec_get (transactions (engine_new (F:=F))) u32_MAX = None /\
  rvec_get (disbutes (engine_new (F:=F))) u32_MAX = None.
Proof. repeat split; reflexivity. Qed.

(** Claim C10: with [Deposit(1, 1, 2.0)], [Withdrawal(1, 2, 1.0)] the
    stored amount of transaction 2 is [-1.0]; [Dispute(1, 2)] then raises
    available from [1.0] to [2.0] (by the withdrawn amount) and drives held
    to [-1.0]. *)
Lemma C10_dispute_of_withdrawal_negative_held :
  (s ← run engine_new [Deposit 1 1 2.0%float; Withdrawal 1 2 1.0%float];
   get_client s 1)
    = Some (mk_client 1 1%float 0%float 1%float false) /\
  (s ← run engine_new [Deposit 1 1 2.0%float; Withdrawal 1 2 1.0%float; Dispute 1 2];
   get_client s 1)
    = Some (mk_client 1 (1 + 1)%float (-1)%float 1%float false) /\
  PrimFloat.ltb (-1)%float 0%float = true.
Proof. split; [|split]; vm_compute; reflexivity. Qed.

(** What an event leaves untouched besides the client [id] and the
    dispute flag of [tx]. *)
Definition frame {F : Type} `{Amount F} (s s' : Engine F) (id tx : N) : Prop :=
  transactions s' = transactions s /\
  (forall j, j <> id -> get_client s' j = get_client s j) /\
  (forall j, j <> tx -> rvec_get (disbutes s') j = rvec_get (disbutes s) j).

Lemma frame_put_flag {F : Type} `{Amount F} (s : Engine F) id tx c b :
  frame s (set_disbutes (put_client s id c) (rvec_write (disbutes s) tx b)) id tx.
Proof.
  split; [reflexivity|split].
  - intros j Hj. rewrite get_client_set_disbutes. by apply get_client_put_ne.
  - intros j Hj. simpl. by apply rvec_get_write_ne.
Qed.

(** [Chargeback(id, tx)] on an existing account whose transaction [tx]
    reads [m] in [transactions] (a pre-filled [0.0] for a transaction id
    never recorded) and is flagged disputed lowers held and total by [m],
    locks the account and clears the flag, touching nothing else; when the
    flag is not set, or the account is absent, it changes nothing. *)
Lemma chargeback_effect {F : Type} `{Amount F} (s : Engine F) (id tx : N) :
  (forall c m,
     get_client s id = Some c -> rvec_get (transactions s) tx = Some m ->
     rvec_get (disbutes s) tx = Some true ->
     exists s', handle_record s (Chargeback id tx) = Some s' /\
       get_client s' id
         = Some (mk_client (cid c) (available c) (a_sub (held c) m)
                           (a_sub (total c) m) true) /\
       rvec_get (disbutes s') tx = Some false /\
       frame s s' id tx) /\
  ((forall c m,
      get_client s id = Some c -> rvec_get (transactions s) tx = Some m ->
      rvec_get (disbutes s) tx <> Some true) ->
   handle_record s (Chargeback id tx) = Some s).
Proof.
  split.
  - intros c m Hc Hm Hd. simpl; unfold chargeback.
    rewrite (get_client_rvec _ _ _ Hc), Hm, Hd.
    rewrite rvec_index_set_lt by (eapply rvec_get_lt; eauto). simpl.
    eexists; split; [reflexivity|]. split; [|split].
    + rewrite get_client_set_disbutes. eapply get_client_put_eq; eauto.
    + simpl. apply rvec_get_write_eq. eapply rvec_get_lt; eauto.
    + apply frame_put_flag.
  - intros Hno. simpl; unfold chargeback.
    destruct (rvec_get (clients s) id) as [[c|]|] eqn:Ec; try done.
    destruct (rvec_get (transactions s) tx) as [m|] eqn:Em; try done.
    destruct (rvec_get (disbutes s) tx) as [[|]|] eqn:Ed; try done.
    exfalso. eapply (Hno c m); eauto. by apply get_client_rvec_inv.
Qed.

(** Claim C5: the chargeback's guard relies on the dispute flag, and the
    flag of a transaction id never recorded can be set (claim C3): after
    Deposit(1, 1, 2.0) and Dispute(1, 2), where transaction 2 was never
    recorded and reads the pre-filled [0.0], Chargeback(1, 2) locks
    account 1 and clears the flag of transaction 2, although transaction
    2 has no stored amount. *)
Theorem C5_chargeback_unrecorded_tx_locks :
  option_map (fun s => (get_client s 1, rvec_get (disbutes s) 2))
    (run engine_new [Deposit 1 1 2.0%float; Dispute 1 2])
  = Some (Some (mk_client 1 2.0%float 0%float 2.0%float false), Some true) /\
  option_map (fun s => (get_client s 1, rvec_get (disbutes s) 2))
    (run engine_new [Deposit 1 1 2.0%float; Dispute 1 2; Chargeback 1 2])
  = Some (Some (mk_client 1 2.0%float 0%float 2.0%float true), Some false).
Proof. split; vm_compute; reflexivity. Qed.

(** ** Locking *)

Section Locking.
Context {F : Type} `{Amount F}.
Implicit Types (s : Engine F) (c : Client F).

Definition with_locked c (b : bool) : Client F :=
  mk_client (cid c) (available c) (held c) (total c) b.

(** The state with the [locked] field of client [id] set to [b]. *)
Definition set_locked s (id : N) (b : bool) : Engine F :=
  match get_client s id with
  | Some c => put_client s id (with_locked c b)
  | None => s
  end.

Lemma put_client_put_client s id a b :
  put_client (put_client s id a) id b = put_client s id b.
Proof. unfold put_client, set_clients; simpl. by rewrite rvec_write_write. Qed.

Lemma put_client_set_disbutes s d id c :
  put_client (set_disbutes s d) id c = set_disbutes (put_client s id c) d.
Proof. reflexivity. Qed.

Lemma put_client_id s id c :
  vfill (clients s) = None -> get_client s id = Some c -> put_client s id c = s.
Proof.
  intros Hf Hc. destruct s as [t [n f cells] d]; simpl in *.
  unfold get_client, rvec_get in Hc; simpl in Hc.
  destruct (id <? n)%N; [|discriminate].
  destruct (cells !! id) as [[c'|]|] eqn:E; simpl in Hc; subst; try discriminate.
  injection Hc as ->. unfold put_client, set_clients, rvec_write; simpl.
  by rewrite insert_id.
Qed.

Lemma with_locked_same c : with_locked c (locked c) = c.
Proof. by destruct c. Qed.

Lemma set_locked_put s id c b :
  (id < vlen (clients s))%N ->
  set_locked (put_client s id c) id b = put_client s id (with_locked c b).
Proof.
  intros Hi. unfold set_locked, get_client, put_client at 2; simpl.
  rewrite rvec_get_write_eq by done. apply put_client_put_client.
Qed.

Lemma handle_record_fill s e s' :
  handle_record s e = Some s' -> vfill (clients s') = vfill (clients s).
Proof. intros Hs. destruct e; step_cases Hs; reflexivity. Qed.

Lemma handle_record_keeps_lock s e s' id c :
  handle_record s e = Some s' -> get_client s id = Some c -> locked c = true ->
  exists c', get_client s' id = Some c' /\ locked c' = true.
Proof.
  intros Hs Hc Hl. pose proof (get_client_lt _ _ _ Hc) as Hi.
  destruct e as [id0 tx a|id0 tx a|id0 tx|id0 tx|id0 tx]; step_cases Hs;
    eauto; client_eqs;
    (destruct (decide (id0 = id)) as [<-|Hne];
     [ eexists; split; [eapply get_client_put_eq; eauto|]
     | rewrite get_client_put_ne by done; eauto ]);
    simpl; try reflexivity;
    match goal with
    | E : rvec_get (clients _) id0 = _ |- _ =>
        apply get_client_rvec in Hc; rewrite Hc in E; simplify_eq; congruence
    end.
Qed.

Lemma set_locked_set_disbutes s d id b :
  set_locked (set_disbutes s d) id b = set_disbutes (set_locked s id b) d.
Proof.
  unfold set_locked. rewrite get_client_set_disbutes.
  by destruct (get_client s id).
Qed.

Lemma with_locked_relock c :
  locked c = true -> with_locked (with_locked c false) true = c.
Proof. destruct c; simpl; intros ->; reflexivity. Qed.

Lemma set_locked_unlock s id c :
  vfill (clients s) = None -> get_client s id = Some c -> locked c = true ->
  set_locked (set_locked s id false) id true = s.
Proof.
  intros Hf Hc Hl. unfold set_locked at 2. rewrite Hc.
  rewrite set_locked_put by (eapply get_client_lt; eauto).
  rewrite with_locked_relock by done. by apply put_client_id.
Qed.

Lemma get_client_unlocked s id c :
  get_client s id = Some c ->
  rvec_get (clients (set_locked s id false)) id = Some (Some (with_locked c false)).
Proof.
  intros Hc. unfold set_locked. rewrite Hc. simpl.
  apply rvec_get_write_eq. eapply get_client_lt; eauto.
Qed.

Lemma set_locked_transactions s id b : transactions (set_locked s id b) = transactions s.
Proof. unfold set_locked. by destruct (get_client s id). Qed.

Lemma set_locked_disbutes s id b : disbutes (set_locked s id b) = disbutes s.
Proof. unfold set_locked. by destruct (get_client s id). Qed.

Lemma put_client_set_locked s id b x :
  put_client (set_locked s id b) id x = put_client s id x.
Proof.
  unfold set_locked. destruct (get_client s id); [apply put_client_put_client|done].
Qed.

Lemma disbutes_put_client s id x : disbutes (put_client s id x) = disbutes s.
Proof. reflexivity. Qed.

(** Splits a dispute-path step on the unlocked and the locked state in
    lockstep and closes both sides. *)
Ltac relock_tac Hf Hc Hl :=
  rewrite ?set_locked_transactions, ?set_locked_disbutes;
  repeat match goal with
  | |- context [rvec_get (transactions ?s) ?tx] =>
      destruct (rvec_get (transactions s) tx) eqn:?
  | |- context [rvec_get (disbutes ?s) ?tx] =>
      destruct (rvec_get (disbutes s) tx) as [[|]|] eqn:?
  end;
  rewrite ?put_client_set_locked, ?disbutes_put_client;
  repeat match goal with
  | |- context [rvec_index_set (disbutes ?s) ?tx ?b] =>
      destruct (rvec_index_set (disbutes s) tx b) eqn:?
  end; simpl; try reflexivity;
  f_equal;
  first
    [ symmetry; eapply set_locked_unlock; eauto
    | rewrite set_locked_set_disbutes, set_locked_put by (eapply get_client_lt; eauto);
      unfold with_locked; simpl; rewrite ?Hl; reflexivity ].

Lemma dispute_ignores_lock s id tx c :
  vfill (clients s) = None -> get_client s id = Some c -> locked c = true ->
  dispute s id tx
    = option_map (fun t => set_locked t id true) (dispute (set_locked s id false) id tx).
Proof.
  intros Hf Hc Hl. unfold dispute at 2. rewrite (get_client_unlocked _ _ _ Hc).
  unfold dispute. rewrite (get_client_rvec _ _ _ Hc).
  relock_tac Hf Hc Hl.
Qed.

Lemma resolve_ignores_lock s id tx c :
  vfill (clients s) = None -> get_client s id = Some c -> locked c = true ->
  resolve s id tx
    = option_map (fun t => set_locked t id true) (resolve (set_locked s id false) id tx).
Proof.
  intros Hf Hc Hl. unfold resolve at 2. rewrite (get_client_unlocked _ _ _ Hc).
  unfold resolve. rewrite (get_client_rvec _ _ _ Hc).
  relock_tac Hf Hc Hl.
Qed.

Lemma chargeback_ignores_lock s id tx c :
  vfill (clients s) = None -> get_client s id = Some c -> locked c = true ->
  chargeback s id tx
    = option_map (fun t => set_locked t id true) (chargeback (set_locked s id false) id tx).
Proof.
  intros Hf Hc Hl. unfold chargeback at 2. rewrite (get_client_unlocked _ _ _ Hc).
  unfold chargeback. rewrite (get_client_rvec _ _ _ Hc).
  relock_tac Hf Hc Hl.
Qed.

End Locking.

Lemma transaction_locked {F : Type} `{Amount F} (s : Engine F) id tx a c :
  get_client s id = Some c -> locked c = true -> transaction s id tx a = Some s.
Proof.
  intros Hc Hl. unfold transaction. by rewrite (get_client_rvec _ _ _ Hc), Hl.
Qed.

Lemma run_keeps_lock {F : Type} `{Amount F} (es : list (Transaction F)) :
  forall (s s' : Engine F) id c,
  vfill (clients s) = None -> get_client s id = Some c -> locked c = true ->
  run s es = Some s' ->
  vfill (clients s') = None /\ exists c', get_client s' id = Some c' /\ locked c' = true.
Proof.
  induction es as [|e es IH]; intros s s' id c Hf Hc Hl Hr; simpl in Hr.
  - injection Hr as <-. eauto.
  - destruct (handle_record s e) as [s1|] eqn:E; simpl in Hr; [|discriminate].
    destruct (handle_record_keeps_lock _ _ _ _ _ E Hc Hl) as (c1 & Hc1 & Hl1).
    eapply IH; [|exact Hc1|exact Hl1|exact Hr].
    by rewrite (handle_record_fill _ _ _ E).
Qed.

(** Claim C6: from a state where account [id] is locked, after any further
    events the account is still locked, a Deposit or Withdrawal for it
    changes nothing, and Dispute, Resolve and Chargeback for it act as on
    the same account unlocked (the result is then locked again): the lock
    is never consulted on the dispute path. *)
Theorem C6_locked_account {F : Type} `{Amount F} (s s' : Engine F) (id : N)
    (c : Client F) (es : list (Transaction F)) :
  vfill (clients s) = None -> get_client s id = Some c -> locked c = true ->
  run s es = Some s' ->
  (exists c', get_client s' id = Some c' /\ locked c' = true) /\
  (forall tx a, handle_record s' (Deposit id tx a) = Some s') /\
  (forall tx a, handle_record s' (Withdrawal id tx a) = Some s') /\
  (forall tx, handle_record s' (Dispute id tx)
     = option_map (fun t => set_locked t id true)
                  (handle_record (set_locked s' id false) (Dispute id tx))) /\
  (forall tx, handle_record s' (Resolve id tx)
     = option_map (fun t => set_locked t id true)
                  (handle_record (set_locked s' id false) (Resolve id tx))) /\
  (forall tx, handle_record s' (Chargeback id tx)
     = option_map (fun t => set_locked t id true)
                  (handle_record (set_locked s' id false) (Chargeback id tx))).
Proof.
  intros Hf Hc Hl Hr.
  destruct (run_keeps_lock es s s' id c Hf Hc Hl Hr) as (Hf' & c' & Hc' & Hl').
  split; [eauto|]. simpl.
  split; [intros; eapply transaction_locked; eauto|].
  split; [intros; eapply transaction_locked; eauto|].
  split; [intros; eapply dispute_ignores_lock; eauto|].
  split; [intros; eapply resolve_ignores_lock; eauto|].
  intros; eapply chargeback_ignores_lock; eauto.
Qed.

Definition c6_locked_events : list (Transaction float) :=
  [Deposit 1 1 2.0%float; Dispute 1 1; Chargeback 1 1].
Definition c6_later_events : list (Transaction float) :=
  [Deposit 1 2 5.0%float; Deposit 1 3 1.0%float; Dispute 1 3; Withdrawal 1 4 1.0%float].

Lemma C6_witness : exists s s' c,
  run engine_new c6_locked_events = Some s /\ get_client s 1 = Some c /\
  locked c = true /\ run s c6_later_events = Some s' /\
  handle_record s' (Deposit 1 5 3.0%float) = Some s'.
Proof.
  destruct (run engine_new c6_locked_events) as [s|] eqn:E;
    [|vm_compute in E; discriminate].
  exists s.
  destruct (run s c6_later_events) as [s'|] eqn:E';
    [|vm_compute in E; injection E as <-; vm_compute in E'; discriminate].
  exists s'.
  destruct (get_client s 1) as [c|] eqn:Ec;
    [|vm_compute in E; injection E as <-; vm_compute in Ec; discriminate].
  exists c.
  assert (Hl : locked c = true)
    by (vm_compute in E; injection E as <-; vm_compute in Ec;
        injection Ec as <-; reflexivity).
  assert (Hf : vfill (clients s) = None)
    by (vm_compute in E; injection E as <-; reflexivity).
  do 4 (split; [reflexivity || assumption|]).
  exact (proj1 (proj2 (C6_locked_account s s' 1 c c6_later_events Hf Ec Hl E')) 5%N 3.0%float).
Defined.

(** ** Dispute followed by resolve, deposit followed by withdrawal *)

Section Roundtrips.
Context {F : Type} `{Amount F}.
Implicit Types (s : Engine F) (c : Client F).

Lemma dispute_resolve_client s s1 s2 id tx c m :
  get_client s id = Some c -> rvec_get (transactions s) tx = Some m ->
  handle_record s (Dispute id tx) = Some s1 ->
  handle_record s1 (Resolve id tx) = Some s2 ->
  get_client s2 id
    = Some (mk_client (cid c) (a_add (a_sub (available c) m) m)
                      (a_sub (a_add (held c) m) m) (total c) (locked c)) /\
  rvec_get (disbutes s2) tx = Some false.
Proof.
  intros Hc Hm H1 H2. simpl in H1, H2. unfold dispute in H1.
  rewrite (get_client_rvec _ _ _ Hc), Hm in H1.
  destruct (rvec_index_set (disbutes _) tx true) as [d|] eqn:Ed;
    simpl in H1; [|discriminate].
  apply rvec_index_set_Some in Ed as [-> Hd]. injection H1 as <-.
  unfold resolve in H2. simpl in H2. rewrite rvec_get_write_eq in H2 by (eapply get_client_lt; eauto).
  rewrite Hm, rvec_get_write_eq in H2 by done. simpl in H2.
  rewrite rvec_index_set_lt in H2 by done. simpl in H2. injection H2 as <-.
  split.
  - rewrite get_client_set_disbutes. eapply get_client_put_eq.
    rewrite get_client_set_disbutes. eapply get_client_put_eq; eauto.
  - simpl. by apply rvec_get_write_eq.
Qed.

Lemma deposit_withdrawal_client s s1 s2 id tx1 tx2 a c :
  get_client s id = Some c ->
  handle_record s (Deposit id tx1 a) = Some s1 ->
  handle_record s1 (Withdrawal id tx2 a) = Some s2 ->
  get_client s2 id
    = Some (if locked c then c
            else mk_client (cid c) (a_add (a_add (available c) a) (a_opp a))
                           (held c) (a_add (a_add (total c) a) (a_opp a)) false).
Proof.
  intros Hc H1 H2. simpl in H1, H2.
  destruct (locked c) eqn:Hl.
  - rewrite (transaction_locked _ _ _ _ _ Hc Hl) in H1. injection H1 as <-.
    rewrite (transaction_locked _ _ _ _ _ Hc Hl) in H2. by injection H2 as <-.
  - unfold transaction in H1. rewrite (get_client_rvec _ _ _ Hc), Hl in H1.
    destruct (rvec_index_set (transactions _) tx1 a) as [t|] eqn:Et;
      simpl in H1; [|discriminate].
    apply rvec_index_set_Some in Et as [-> _]. injection H1 as <-.
    unfold transaction in H2. simpl in H2.
    rewrite rvec_get_write_eq in H2 by (eapply get_client_lt; eauto). simpl in H2.
    destruct (rvec_index_set _ tx2 (a_opp a)) as [t|] eqn:Et;
      simpl in H2; [|discriminate].
    injection H2 as <-. rewrite get_client_set_transactions.
    eapply get_client_put_eq. rewrite get_client_set_transactions.
    eapply get_client_put_eq; eauto.
Qed.

End Roundtrips.

(** Evaluates every hypothesis [e = Some x] of a concrete run, binding [x]
    to the computed value; [refute_none] closes a branch where a concrete
    step was assumed to panic. *)
Ltac eval_some :=
  repeat match goal with
  | E : _ = Some ?x |- _ => is_var x; vm_compute in E; injection E as <-
  end.

Ltac refute_none :=
  eval_some; match goal with E : _ = None |- _ => vm_compute in E; discriminate end.

(** Claim C7 (as amended): with exact amounts, Dispute(id, tx) followed by
    Resolve(id, tx) on an existing account, where [tx] has the stored
    amount [m], gives back the account's available and held exactly and
    leaves the dispute flag of [tx] false. *)
Theorem C7_dispute_resolve_restores_exact (s s1 s2 : Engine Z) (id tx : N)
    (c : Client Z) (m : Z) :
  get_client s id = Some c -> rvec_get (transactions s) tx = Some m ->
  handle_record s (Dispute id tx) = Some s1 ->
  handle_record s1 (Resolve id tx) = Some s2 ->
  exists c2, get_client s2 id = Some c2 /\
    available c2 = available c /\ held c2 = held c /\
    rvec_get (disbutes s2) tx = Some false.
Proof.
  intros Hc Hm H1 H2.
  destruct (dispute_resolve_client s s1 s2 id tx c m Hc Hm H1 H2) as [Hc2 Hd].
  eexists; split; [exact Hc2|]. simpl. repeat split; [lia|lia|exact Hd].
Qed.

Definition c7_events : list (Transaction float) :=
  [Deposit 1 1 0.1%float; Deposit 1 2 0.2%float; Deposit 1 3 0.6%float].

(** Claim C7 (as stated, on [f64]): after [c7_events] account 1 has
    available [0.9]; Dispute(1, 2) and Resolve(1, 2) leave it at
    [0.8999999999999999]. *)
Lemma C7_f64_counterexample :
  ~ (forall (s s1 s2 : Engine float) (id tx : N) (c : Client float) (m : float),
       get_client s id = Some c -> rvec_get (transactions s) tx = Some m ->
       handle_record s (Dispute id tx) = Some s1 ->
       handle_record s1 (Resolve id tx) = Some s2 ->
       exists c2, get_client s2 id = Some c2 /\
         available c2 = available c /\ held c2 = held c /\
         rvec_get (disbutes s2) tx = Some false).
Proof.
  intros Hall.
  destruct (run engine_new c7_events) as [s|] eqn:E; [|refute_none].
  destruct (get_client s 1) as [c|] eqn:Ec; [|refute_none].
  destruct (rvec_get (transactions s) 2) as [m|] eqn:Em; [|refute_none].
  destruct (handle_record s (Dispute 1 2)) as [s1|] eqn:E1; [|refute_none].
  destruct (handle_record s1 (Resolve 1 2)) as [s2|] eqn:E2; [|refute_none].
  destruct (Hall s s1 s2 1%N 2%N c m Ec Em E1 E2) as (c2 & Hc2 & Ha & _).
  eval_some.
  apply (f_equal (fun x => PrimFloat.eqb x 0.9%float)) in Ha.
  vm_compute in Ha. discriminate.
Qed.

Definition c7_events_exact : list (Transaction Z) :=
  [Deposit 1 1 1000%Z; Deposit 1 2 2000%Z; Deposit 1 3 6000%Z].

Lemma C7_witness : exists s s1 s2 c c2,
  run engine_new c7_events_exact = Some s /\ get_client s 1 = Some c /\
  handle_record s (Dispute 1 2) = Some s1 /\ handle_record s1 (Resolve 1 2) = Some s2 /\
  get_client s2 1 = Some c2 /\ available c2 = available c /\ held c2 = held c.
Proof.
  destruct (run engine_new c7_events_exact) as [s|] eqn:E; [|refute_none].
  destruct (get_client s 1) as [c|] eqn:Ec; [|refute_none].
  destruct (rvec_get (transactions s) 2) as [m|] eqn:Em; [|refute_none].
  destruct (handle_record s (Dispute 1 2)) as [s1|] eqn:E1; [|refute_none].
  destruct (handle_record s1 (Resolve 1 2)) as [s2|] eqn:E2; [|refute_none].
  destruct (C7_dispute_resolve_restores_exact s s1 s2 1%N 2%N c m Ec Em E1 E2)
    as (c2 & Hc2 & Ha & Hh & _).
  exists s, s1, s2, c, c2. auto 7.
Defined.

(** Claim C8 (as amended): with exact amounts, a Deposit of [a] followed by
    a Withdrawal of [a] for an existing account gives back its available
    and total exactly. *)
Theorem C8_deposit_withdrawal_restores_exact (s s1 s2 : Engine Z) (id tx1 tx2 : N)
    (a : Z) (c : Client Z) :
  get_client s id = Some c ->
  handle_record s (Deposit id tx1 a) = Some s1 ->
  handle_record s1 (Withdrawal id tx2 a) = Some s2 ->
  exists c2, get_client s2 id = Some c2 /\
    available c2 = available c /\ total c2 = total c.
Proof.
  intros Hc H1 H2.
  pose proof (deposit_withdrawal_client s s1 s2 id tx1 tx2 a c Hc H1 H2) as Hc2.
  eexists; split; [exact Hc2|].
  destruct (locked c); simpl; split; lia.
Qed.

(** Claim C8 (as stated, on [f64]): account 1 has available [0.1]; after a
    Deposit and a Withdrawal of [0.2] it has [0.10000000000000003]. *)
Lemma C8_f64_counterexample :
  ~ (forall (s s1 s2 : Engine float) (id tx1 tx2 : N) (a : float) (c : Client float),
       get_client s id = Some c ->
       handle_record s (Deposit id tx1 a) = Some s1 ->
       handle_record s1 (Withdrawal id tx2 a) = Some s2 ->
       exists c2, get_client s2 id = Some c2 /\
         available c2 = available c /\ total c2 = total c).
Proof.
  intros Hall.
  destruct (run engine_new [Deposit 1 1 0.1%float]) as [s|] eqn:E; [|refute_none].
  destruct (get_client s 1) as [c|] eqn:Ec; [|refute_none].
  destruct (handle_record s (Deposit 1 2 0.2%float)) as [s1|] eqn:E1; [|refute_none].
  destruct (handle_record s1 (Withdrawal 1 3 0.2%float)) as [s2|] eqn:E2; [|refute_none].
  destruct (Hall s s1 s2 1%N 2%N 3%N 0.2%float c Ec E1 E2) as (c2 & Hc2 & Ha & _).
  eval_some.
  apply (f_equal (fun x => PrimFloat.eqb x 0.1%float)) in Ha.
  vm_compute in Ha. discriminate.
Qed.

Lemma C8_witness : exists s s1 s2 c c2,
  run engine_new [Deposit 1 1 1000%Z] = Some s /\ get_client s 1 = Some c /\
  handle_record s (Deposit 1 2 2000%Z) = Some s1 /\
  handle_record s1 (Withdrawal 1 3 2000%Z) = Some s2 /\
  get_client s2 1 = Some c2 /\ available c2 = available c /\ total c2 = total c.
Proof.
  destruct (run engine_new [Deposit 1 1 1000%Z]) as [s|] eqn:E; [|refute_none].
  destruct (get_client s 1) as [c|] eqn:Ec; [|refute_none].
  destruct (handle_record s (Deposit 1 2 2000%Z)) as [s1|] eqn:E1; [|refute_none].
  destruct (handle_record s1 (Withdrawal 1 3 2000%Z)) as [s2|] eqn:E2; [|refute_none].
  destruct (C8_deposit_withdrawal_restores_exact s s1 s2 1%N 2%N 3%N 2000%Z c Ec E1 E2)
    as (c2 & Hc2 & Ha & Ht).
  exists s, s1, s2, c, c2. auto 7.
Defined.

Lemma transaction_records {F : Type} `{Amount F} (s s1 : Engine F) (B tx : N) (m : F) :
  (get_client s B = None \/ exists cB, get_client s B = Some cB /\ locked cB = false) ->
  transaction s B tx m = Some s1 ->
  rvec_get (transactions s1) tx = Some m /\ disbutes s1 = disbutes s /\
  vlen (transactions s1) = vlen (transactions s) /\
  (forall j, j <> B -> get_client s1 j = get_client s j).
Proof.
  intros HB Hs. unfold transaction in Hs.
  destruct (rvec_get (clients s) B) as [[cB|]|] eqn:Ec.
  - destruct (locked cB) eqn:Hl.
    + exfalso. apply get_client_rvec_inv in Ec.
      destruct HB as [HB|(cB' & HB & Hl')]; congruence.
    + destruct (rvec_index_set (transactions _) tx m) as [t|] eqn:Et;
        simpl in Hs; [|discriminate].
      apply rvec_index_set_Some in Et as [-> Ht]. injection Hs as <-.
      simpl. split; [by apply rvec_get_write_eq|]. split; [done|]. split; [done|].
      intros j Hj. rewrite get_client_set_transactions. by apply get_client_put_ne.
  - destruct (rvec_index_set (clients s) B _) as [cs|] eqn:Ecs;
      simpl in Hs; [|discriminate].
    apply rvec_index_set_Some in Ecs as [-> _].
    destruct (rvec_index_set (transactions _) tx m) as [t|] eqn:Et;
      simpl in Hs; [|discriminate].
    apply rvec_index_set_Some in Et as [-> Ht]. injection Hs as <-.
    simpl. split; [by apply rvec_get_write_eq|]. split; [done|]. split; [done|].
    intros j Hj. rewrite get_client_set_transactions, set_clients_write.
    by apply get_client_put_ne.
  - destruct (rvec_index_set (clients s) B _) as [cs|] eqn:Ecs;
      simpl in Hs; [|discriminate].
    apply rvec_index_set_Some in Ecs as [-> _].
    destruct (rvec_index_set (transactions _) tx m) as [t|] eqn:Et;
      simpl in Hs; [|discriminate].
    apply rvec_index_set_Some in Et as [-> Ht]. injection Hs as <-.
    simpl. split; [by apply rvec_get_write_eq|]. split; [done|]. split; [done|].
    intros j Hj. rewrite get_client_set_transactions, set_clients_write.
    by apply get_client_put_ne.
Qed.

(** Claim C9: [Engine::dispute] never checks who owns the transaction.
    In every state where account [A] exists and transaction [tx] holds the
    amount [m] (as it does once any account [B] recorded [tx] with [m],
    see [transaction_records], until [tx] is written again), Dispute(A, tx)
    takes [m] out of [A]'s available, adds it to [A]'s held and marks [tx]
    disputed, whoever recorded [tx].  The hypothesis on the vector lengths
    holds in every state reached from [Engine::new]. *)
Theorem C9_dispute_foreign_transaction {F : Type} `{Amount F}
    (s : Engine F) (A tx : N) (m : F) (cA : Client F) :
  vlen (disbutes s) = vlen (transactions s) ->
  rvec_get (transactions s) tx = Some m ->
  get_client s A = Some cA ->
  exists s2, handle_record s (Dispute A tx) = Some s2 /\
    get_client s2 A
      = Some (mk_client (cid cA) (a_sub (available cA) m) (a_add (held cA) m)
                        (total cA) (locked cA)) /\
    rvec_get (disbutes s2) tx = Some true.
Proof.
  intros Hlen Hm HcA.
  pose proof (rvec_get_lt _ _ _ Hm) as Htx.
  simpl. unfold dispute. rewrite (get_client_rvec _ _ _ HcA), Hm.
  rewrite rvec_index_set_lt by (simpl; rewrite Hlen; lia). simpl.
  eexists; split; [reflexivity|]. split.
  - rewrite get_client_set_disbutes. eapply get_client_put_eq; eauto.
  - simpl. apply rvec_get_write_eq. simpl. rewrite Hlen. lia.
Qed.

(** Account 2 records transaction 2 with 3.0; account 1 is created
    afterwards and then disputes transaction 2. *)
Lemma C9_witness : exists s s2 cA,
  run engine_new [Deposit 2 2 3.0%float; Deposit 1 1 5.0%float] = Some s /\
  get_client s 1 = Some cA /\
  handle_record s (Dispute 1 2) = Some s2 /\
  get_client s2 1 = Some (mk_client 1 2.0%float 3.0%float 5.0%float false) /\
  rvec_get (disbutes s2) 2 = Some true.
Proof.
  destruct (run engine_new [Deposit 2 2 3.0%float; Deposit 1 1 5.0%float])
    as [s|] eqn:E; [|refute_none].
  destruct (get_client s 1) as [cA|] eqn:Ec; [|refute_none].
  destruct (rvec_get (transactions s) 2) as [m|] eqn:Em; [|refute_none].
  assert (Hlen : vlen (disbutes s) = vlen (transactions s))
    by (eval_some; reflexivity).
  destruct (C9_dispute_foreign_transaction s 1%N 2%N m cA Hlen Em Ec)
    as (s2 & Hs2 & Hc2 & Hd2).
  exists s, s2, cA. do 3 (split; [reflexivity || assumption|]).
  split; [|exact Hd2].
  rewrite Hc2. eval_some. vm_compute. reflexivity.
Defined.

Lemma chargeback_effect_example : exists s s',
  run engine_new [Deposit 1 1 2.0%float; Dispute 1 1] = Some s /\
  handle_record s (Chargeback 1 1) = Some s' /\
  get_client s' 1 = Some (mk_client 1 0%float 0%float 0%float true) /\
  rvec_get (disbutes s') 1 = Some false /\
  handle_record s (Chargeback 1 2) = Some s.
Proof.
  destruct (run engine_new [Deposit 1 1 2.0%float; Dispute 1 1]) as [s|] eqn:E;
    [|refute_none].
  destruct (get_client s 1) as [c|] eqn:Ec; [|refute_none].
  destruct (rvec_get (transactions s) 1) as [m|] eqn:Em; [|refute_none].
  assert (Hd : rvec_get (disbutes s) 1 = Some true) by (eval_some; reflexivity).
  destruct (proj1 (chargeback_effect s 1%N 1%N) c m Ec Em Hd)
    as (s' & Hs' & Hc' & Hd' & _).
  assert (Hno : forall c m, get_client s 1 = Some c ->
            rvec_get (transactions s) 2 = Some m -> rvec_get (disbutes s) 2 <> Some true)
    by (intros ? ? _ _; eval_some; vm_compute; discriminate).
  exists s, s'. split; [reflexivity|]. split; [exact Hs'|].
  split; [rewrite Hc'; eval_some; vm_compute; reflexivity|].
  split; [exact Hd'|].
  exact (proj2 (chargeback_effect s 1%N 2%N) Hno).
Defined.

(** ** Further properties of the engine *)

Section EngineMore.
Context {F : Type} `{Amount F}.
Implicit Types (s : Engine F) (c : Client F).

(** The shape [Engine::new] gives the three vectors. *)
Definition engine_wf s : Prop :=
  vlen (transactions s) = u32_MAX /\ vlen (clients s) = u16_MAX /\
  vlen (disbutes s) = u32_MAX /\ vfill (clients s) = None.

Lemma engine_new_wf : engine_wf engine_new.
Proof. repeat split. Qed.

Lemma handle_record_wf s e s' :
  engine_wf s -> handle_record s e = Some s' -> engine_wf s'.
Proof.
  intros (Ht & Hc & Hd & Hf) Hs. destruct e; step_cases Hs;
    repeat split; simpl; auto.
Qed.

Lemma run_wf es : forall s s', engine_wf s -> run s es = Some s' -> engine_wf s'.
Proof.
  induction es as [|e es IH]; intros s s' Hw Hr; simpl in Hr.
  - by injection Hr as <-.
  - destruct (handle_record s e) as [s1|] eqn:E; simpl in Hr; [|discriminate].
    eapply IH; [eapply handle_record_wf|]; eauto.
Qed.

(** Every client is stored at the index of its own id. *)
Definition ids_match s : Prop := forall i c, get_client s i = Some c -> cid c = i.

Lemma handle_record_ids_match s e s' :
  ids_match s -> handle_record s e = Some s' -> ids_match s'.
Proof.
  intros Hm Hs. destruct e; step_cases Hs; try assumption;
    intros j c' Hj; client_eqs;
    apply get_client_put_inv in Hj as [[-> ->]|Hj]; eauto; simpl;
    try reflexivity;
    match goal with
    | E : rvec_get (clients _) _ = Some (Some _) |- _ =>
        apply get_client_rvec_inv, Hm in E; exact E
    end.
Qed.

Lemma run_ids_match es : forall s s', ids_match s -> run s es = Some s' -> ids_match s'.
Proof.
  induction es as [|e es IH]; intros s s' Hw Hr; simpl in Hr.
  - by injection Hr as <-.
  - destruct (handle_record s e) as [s1|] eqn:E; simpl in Hr; [|discriminate].
    eapply IH; [eapply handle_record_ids_match|]; eauto.
Qed.

Lemma engine_new_ids_match : ids_match (engine_new (F:=F)).
Proof. intros i c. by rewrite engine_new_no_client. Qed.

(** The events that can create the account [i]. *)
Definition names_account (e : Transaction F) (i : N) : Prop :=
  match e with
  | Deposit j _ _ | Withdrawal j _ _ => j = i
  | _ => False
  end.

Lemma get_client_put_is_Some s id i c :
  (id < vlen (clients s))%N ->
  is_Some (get_client (put_client s id c) i) <-> i = id \/ is_Some (get_client s i).
Proof.
  intros Hi. destruct (decide (id = i)) as [<-|Hne].
  - unfold get_client, put_client; simpl. rewrite rvec_get_write_eq by done.
    split; [auto|intros _; eauto].
  - rewrite get_client_put_ne by done. split; [auto|intros [->|?]; [done|auto]].
Qed.

Lemma handle_record_accounts s e s' i :
  handle_record s e = Some s' ->
  is_Some (get_client s' i) <-> is_Some (get_client s i) \/ names_account e i.
Proof.
  intros Hs. destruct e as [id tx a|id tx a|id tx|id tx|id tx]; simpl names_account.
  all: step_cases Hs; client_eqs.
  all: try (rewrite get_client_put_is_Some
              by (first [assumption | eapply rvec_get_lt; eauto])).
  all: try match goal with
       | E : rvec_get (clients _) _ = Some (Some _) |- _ => apply get_client_rvec_inv in E
       end.
  all: intuition (subst; try (eexists; eassumption); eauto).
Qed.

Lemma run_accounts es : forall s s' i,
  run s es = Some s' ->
  is_Some (get_client s' i) <->
  is_Some (get_client s i) \/ exists e, In e es /\ names_account e i.
Proof.
  induction es as [|e es IH]; intros s s' i Hr; simpl in Hr.
  - injection Hr as <-. simpl. split; [auto|intros [?|(? & [] & _)]; auto].
  - destruct (handle_record s e) as [s1|] eqn:E; simpl in Hr; [|discriminate].
    rewrite (IH _ _ i Hr), (handle_record_accounts _ _ _ i E). simpl.
    split.
    + intros [[?|?]|(e' & ? & ?)]; eauto.
    + intros [?|(e' & [<-|?] & ?)]; eauto.
Qed.

Lemma transaction_panics s id tx a :
  engine_wf s ->
  transaction s id tx a = None <->
  (u16_MAX <= id)%N \/
  ((u32_MAX <= tx)%N /\ ~ exists c, get_client s id = Some c /\ locked c = true).
Proof.
  intros (Ht & Hc & Hd & Hf). unfold transaction.
  destruct (rvec_get (clients s) id) as [[c|]|] eqn:E.
  - pose proof (rvec_get_lt _ _ _ E) as Hi. apply get_client_rvec_inv in E.
    destruct (locked c) eqn:Hl.
    + split; [discriminate|]. intros [?|(_ & Hn)]; [lia|]. exfalso; eauto.
    + unfold put_client, rvec_index_set; simpl. rewrite Ht.
      destruct (N.ltb_spec tx u32_MAX); simpl.
      * split; [discriminate|]. intros [?|[? _]]; lia.
      * split; [|done]. intros _. right. split; [lia|].
        intros (c' & Hc' & Hl'). congruence.
  - pose proof (rvec_get_lt _ _ _ E) as Hi.
    rewrite rvec_index_set_lt by done. simpl.
    unfold rvec_index_set; simpl. rewrite Ht.
    assert (Hn : get_client s id = None) by (unfold get_client; by rewrite E).
    destruct (N.ltb_spec tx u32_MAX); simpl.
    + split; [discriminate|]. intros [?|[? _]]; lia.
    + split; [|done]. intros _. right. split; [lia|].
      intros (c' & Hc' & _). congruence.
  - unfold rvec_get in E. destruct (N.ltb_spec id (vlen (clients s))); [discriminate|].
    rewrite rvec_index_set_ge by done. simpl. split; [intros _; left; lia|done].
Qed.

Lemma dispute_path_no_panic s id tx :
  engine_wf s ->
  dispute s id tx <> None /\ resolve s id tx <> None /\ chargeback s id tx <> None.
Proof.
  intros (Ht & Hc & Hd & Hf).
  unfold dispute, resolve, chargeback.
  destruct (rvec_get (clients s) id) as [[c|]|]; [|done|done].
  destruct (rvec_get (transactions s) tx) as [m|] eqn:Em; [|done].
  pose proof (rvec_get_lt _ _ _ Em) as Htx.
  assert (Hdx : (tx < vlen (disbutes s))%N) by lia.
  destruct (rvec_get (disbutes s) tx) as [[|]|];
    rewrite ?rvec_index_set_lt by (simpl; lia); done.
Qed.

End EngineMore.

(** Extra X1: in every state reached from [Engine::new], the client stored
    at index [i] of [clients] has id [i] (so [dump_clients] prints each
    client under the id it was created for). *)
Theorem X1_client_stored_at_own_id {F : Type} `{Amount F}
    (es : list (Transaction F)) (s : Engine F) (i : N) (c : Client F) :
  run engine_new es = Some s -> get_client s i = Some c -> cid c = i.
Proof.
  intros Hr Hc. exact (run_ids_match es _ _ engine_new_ids_match Hr i c Hc).
Qed.

Lemma X1_witness : exists s c,
  run engine_new [Deposit 3 1 1.0%float; Deposit 7 2 2.0%float] = Some s /\
  get_client s 7 = Some c /\ cid c = 7%N.
Proof.
  destruct (run engine_new [Deposit 3 1 1.0%float; Deposit 7 2 2.0%float])
    as [s|] eqn:E; [|refute_none].
  exists s. destruct (get_client s 7) as [c|] eqn:Ec; [|refute_none].
  exists c. split; [reflexivity|]. split; [reflexivity|].
  exact (X1_client_stored_at_own_id _ s 7%N c E Ec).
Defined.

(** Extra X2: after a run from [Engine::new] that does not panic, account
    [i] exists exactly when some Deposit or Withdrawal of the run named
    [i]: no event deletes an account, and Dispute, Resolve and Chargeback
    never create one. *)
Theorem X2_accounts_from_deposit_withdrawal {F : Type} `{Amount F}
    (es : list (Transaction F)) (s : Engine F) (i : N) :
  run engine_new es = Some s ->
  is_Some (get_client s i) <-> exists e, In e es /\ names_account e i.
Proof.
  intros Hr. rewrite (run_accounts es _ _ i Hr), engine_new_no_client.
  split; [intros [[? ?]|?]; [discriminate|done]|auto].
Qed.

Lemma X2_witness : exists s,
  run engine_new [Deposit 3 1 1.0%float; Dispute 9 1; Resolve 9 1; Chargeback 9 1] = Some s /\
  get_client s 9 = None /\ is_Some (get_client s 3).
Proof.
  destruct (run engine_new [Deposit 3 1 1.0%float; Dispute 9 1; Resolve 9 1; Chargeback 9 1])
    as [s|] eqn:E; [|refute_none].
  exists s. split; [reflexivity|]. split.
  - destruct (get_client s 9) as [c|] eqn:Ec; [|reflexivity]. exfalso.
    destruct (proj1 (X2_accounts_from_deposit_withdrawal _ s 9%N E) (ex_intro _ c Ec))
      as (e & Hin & Hn).
    simpl in Hin. destruct Hin as [<-|[<-|[<-|[<-|[]]]]]; simpl in Hn; done.
  - apply (X2_accounts_from_deposit_withdrawal _ s 3%N E).
    exists (Deposit 3 1 1.0%float). simpl. auto.
Defined.

(** Extra X3: in every state reached from [Engine::new], an event panics
    exactly when it is a Deposit or Withdrawal whose client id is
    [u16::MAX] or more, or whose transaction id is [u32::MAX] or more while
    the account is not an existing locked account (a locked account returns
    before any indexing).  Dispute, Resolve and Chargeback never panic. *)
Theorem X3_panics_exactly {F : Type} `{Amount F}
    (es : list (Transaction F)) (s : Engine F) (e : Transaction F) :
  run engine_new es = Some s ->
  handle_record s e = None <->
  match e with
  | Deposit id tx _ | Withdrawal id tx _ =>
      (u16_MAX <= id)%N \/
      ((u32_MAX <= tx)%N /\ ~ exists c, get_client s id = Some c /\ locked c = true)
  | _ => False
  end.
Proof.
  intros Hr. pose proof (run_wf es _ _ engine_new_wf Hr) as Hw.
  destruct e as [id tx a|id tx a|id tx|id tx|id tx]; simpl.
  1,2: by apply transaction_panics.
  all: pose proof (dispute_path_no_panic s id tx Hw) as (? & ? & ?); tauto.
Qed.

Lemma X3_witness : exists s,
  run engine_new [Deposit 1 1 2.0%float; Dispute 1 1; Chargeback 1 1] = Some s /\
  handle_record s (Deposit 1 u32_MAX 1.0%float) <> None /\
  handle_record s (Deposit 2 u32_MAX 1.0%float) = None.
Proof.
  destruct (run engine_new [Deposit 1 1 2.0%float; Dispute 1 1; Chargeback 1 1])
    as [s|] eqn:E; [|refute_none].
  destruct (get_client s 1) as [c|] eqn:Ec; [|refute_none].
  assert (Hl : locked c = true) by (eval_some; reflexivity).
  assert (H2 : get_client s 2 = None) by (eval_some; reflexivity).
  exists s. split; [reflexivity|]. split.
  - rewrite (X3_panics_exactly _ s _ E). intros [Hle|[_ Hn]]; [apply Hle; reflexivity|].
    apply Hn. eauto.
  - apply (X3_panics_exactly _ s _ E). right. split; [reflexivity|].
    intros (c' & Hc' & _). congruence.
Defined.

(** Extra X4: a Deposit or Withdrawal on an account that is absent or not
    locked overwrites the amount stored for its transaction id, whatever
    was stored before (a reused id keeps the last amount): [amount] for a
    Deposit, [-amount] for a Withdrawal. *)
Theorem X4_last_amount_stored {F : Type} `{Amount F}
    (s s' : Engine F) (id tx : N) (a : F) (w : bool) :
  (forall c, get_client s id = Some c -> locked c = false) ->
  handle_record s (if w then Withdrawal id tx a else Deposit id tx a) = Some s' ->
  rvec_get (transactions s') tx = Some (if w then a_opp a else a).
Proof.
  intros Hu Hs.
  assert (HB : get_client s id = None \/
               exists cB, get_client s id = Some cB /\ locked cB = false).
  { destruct (get_client s id) as [c|] eqn:Ec; [right; eauto|left; done]. }
  destruct w; simpl in Hs; by apply (transaction_records s s' id tx _ HB Hs).
Qed.

Lemma X4_witness : exists s s',
  run engine_new [Deposit 1 1 2.0%float] = Some s /\
  handle_record s (Deposit 1 1 5.0%float) = Some s' /\
  rvec_get (transactions s') 1 = Some 5.0%float.
Proof.
  destruct (run engine_new [Deposit 1 1 2.0%float]) as [s|] eqn:E; [|refute_none].
  destruct (handle_record s (Deposit 1 1 5.0%float)) as [s'|] eqn:E1; [|refute_none].
  assert (Hu : forall c, get_client s 1 = Some c -> locked c = false)
    by (intros c Hc; eval_some; reflexivity).
  exists s, s'. split; [reflexivity|]. split; [exact E1|].
  exact (X4_last_amount_stored s s' 1%N 1%N 5.0%float false Hu E1).
Defined.

(** ** Facts on reading records *)

Section ParseFacts.

Definition is_digit (c : N) : Prop := (48 <= c <= 57)%N.

Lemma digits_val_digit acc c r :
  is_digit c -> digits_val acc (c :: r) = digits_val (acc * 10 + (c - 48)) r.
Proof.
  intros [H1 H2]. simpl. apply N.leb_le in H1. apply N.leb_le in H2.
  by rewrite H1, H2.
Qed.

Lemma dec_aux_val f : forall n l,
  (n < 2 ^ N.of_nat f)%N -> digits_val 0 (dec_aux f n l) = digits_val n l.
Proof.
  induction f as [|f IH]; intros n l Hn; cbn [dec_aux].
  - replace n with 0%N by (simpl in Hn; lia). reflexivity.
  - assert (Hm : (n mod 10 < 10)%N) by (apply N.mod_lt; lia).
    destruct (N.ltb_spec n 10) as [Hlt|Hge].
    + rewrite digits_val_digit by (unfold is_digit; clear -Hm; pose proof (N.le_0_l (n mod 10)); lia).
      rewrite N.mod_small by lia. f_equal. lia.
    + rewrite IH.
      * rewrite digits_val_digit by (unfold is_digit; clear -Hm; pose proof (N.le_0_l (n mod 10)); lia).
        f_equal. rewrite (N.add_comm 48 (n mod 10)), N.add_sub, N.mul_comm.
        symmetry. apply N.div_mod. lia.
      * apply N.Div0.div_lt_upper_bound.
        rewrite Nat2N.inj_succ, N.pow_succ_r' in Hn. lia.
Qed.

Lemma dec_val n : digits_val 0 (dec n) = Some n.
Proof.
  unfold dec. rewrite dec_aux_val; [reflexivity|].
  rewrite Nat2N.inj_succ, N2Nat.id, N.pow_succ_r'.
  pose proof (N.size_gt n). lia.
Qed.

Lemma dec_aux_digits f : forall n l,
  Forall is_digit l -> Forall is_digit (dec_aux f n l).
Proof.
  assert (Hd : forall n, is_digit (48 + n mod 10)%N).
  { intros n. assert (n mod 10 < 10)%N by (apply N.mod_lt; lia).
    pose proof (N.le_0_l (n mod 10)). unfold is_digit. lia. }
  induction f as [|f IH]; intros n l Hl; simpl; [done|].
  destruct (n <? 10)%N; [|apply IH]; constructor; auto.
Qed.

Lemma dec_digits n : Forall is_digit (dec n).
Proof. apply dec_aux_digits. constructor. Qed.

Lemma dec_aux_nonempty f : forall n c l, dec_aux f n (c :: l) <> [].
Proof.
  induction f as [|f IH]; intros n c l; simpl; [done|].
  destruct (n <? 10)%N; [done|apply IH].
Qed.

Lemma dec_nonempty n : dec n <> [].
Proof.
  unfold dec. simpl. destruct (n <? 10)%N; [done|apply dec_aux_nonempty].
Qed.

Lemma digit_not_ws c : is_digit c -> is_whitespace c = false.
Proof.
  unfold is_digit. intros Hc.
  assert (c = 48 \/ c = 49 \/ c = 50 \/ c = 51 \/ c = 52 \/ c = 53 \/
          c = 54 \/ c = 55 \/ c = 56 \/ c = 57)%N as Hc' by lia.
  repeat destruct Hc' as [->|Hc']; try subst c; reflexivity.
Qed.

Lemma parse_uint_digits max ds :
  ds <> [] -> Forall is_digit ds ->
  parse_uint max ds = (v ← digits_val 0 ds; if (v <=? max)%N then Some v else None).
Proof.
  intros Hne Hd. destruct ds as [|c r]; [done|].
  apply Forall_cons in Hd as [[Hc1 Hc2] _].
  assert ((c =? 43)%N = false) as E43 by (apply N.eqb_neq; lia).
  assert ((c =? 45)%N = false) as E45 by (apply N.eqb_neq; lia).
  unfold parse_uint. destruct r; by rewrite ?E43, ?E45.
Qed.

Lemma parse_uint_dec max n :
  parse_uint max (dec n) = if (n <=? max)%N then Some n else None.
Proof.
  rewrite parse_uint_digits by (apply dec_nonempty || apply dec_digits).
  by rewrite dec_val.
Qed.

(** ASCII padding: the one-byte whitespace characters. *)
Definition ascii_ws (c : N) : Prop := (c < 128)%N /\ is_whitespace c = true.

Lemma utf8_decode_ascii cs : Forall (fun c => c < 128)%N cs -> utf8_decode cs = cs.
Proof.
  induction 1 as [|c cs Hc _ IH]; [done|]. simpl.
  apply N.ltb_lt in Hc. by rewrite Hc, IH.
Qed.

Lemma chars_ascii_field cs : Forall (fun c => c < 128)%N cs -> chars (ascii_field cs) = cs.
Proof.
  intros Hc. unfold chars, ascii_field.
  rewrite String.list_ascii_of_string_of_list_ascii, map_map.
  rewrite (map_ext_in _ (fun c => c)), map_id; [by apply utf8_decode_ascii|].
  intros c Hin. apply Ascii.N_ascii_embedding.
  eapply List.Forall_forall in Hc; [|exact Hin]. lia.
Qed.

Lemma trim_start_ws p y : Forall ascii_ws p -> trim_start (p ++ y) = trim_start y.
Proof. induction 1 as [|c p [_ Hc] _ IH]; [done|]. simpl. by rewrite Hc. Qed.

Lemma trim_start_keep c y : is_whitespace c = false -> trim_start (c :: y) = c :: y.
Proof. simpl. by intros ->. Qed.

Lemma trim_padded p1 x p2 :
  Forall ascii_ws p1 -> Forall ascii_ws p2 -> x <> [] ->
  Forall (fun c => is_whitespace c = false) x ->
  trim (p1 ++ x ++ p2) = x.
Proof.
  intros H1 H2 Hne Hx. unfold trim. rewrite trim_start_ws by done.
  destruct x as [|c x]; [done|].
  rewrite <- app_comm_cons, trim_start_keep by (by apply Forall_cons in Hx as [? _]).
  rewrite app_comm_cons, rev_app_distr, trim_start_ws by (by apply Forall_rev).
  destruct (rev (c :: x)) as [|d r] eqn:E.
  { simpl in E. apply app_eq_nil in E as [_ ?]. discriminate. }
  rewrite trim_start_keep, <- E, rev_involutive; [done|].
  assert (Hd : In d (rev (c :: x))) by (rewrite E; left; reflexivity).
  apply (proj2 (in_rev _ _)) in Hd.
  by eapply List.Forall_forall in Hx.
Qed.

(** A number written in decimal with ASCII whitespace around it, as the
    field of a record. *)
Definition num_field (p1 : list N) (n : N) (p2 : list N) : string :=
  ascii_field (p1 ++ dec n ++ p2).

Lemma parse_num_field max p1 n p2 :
  Forall ascii_ws p1 -> Forall ascii_ws p2 ->
  parse_uint max (trim (chars (num_field p1 n p2))) =
  if (n <=? max)%N then Some n else None.
Proof.
  intros H1 H2. unfold num_field.
  rewrite chars_ascii_field.
  2:{ apply Forall_app; split; [|apply Forall_app; split].
      - eapply Forall_impl; [exact H1|]. intros c []. done.
      - eapply Forall_impl; [apply dec_digits|]. intros c Hc. unfold is_digit in Hc. lia.
      - eapply Forall_impl; [exact H2|]. intros c []. done. }
  rewrite trim_padded; [apply parse_uint_dec|done|done|apply dec_nonempty|].
  eapply Forall_impl; [apply dec_digits|]. apply digit_not_ws.
Qed.

End ParseFacts.

Section ReadFacts.
Context {F : Type} `{Amount F}.
Context (parse_f64 : list N -> option F).

Lemma field_uint_num max record i p1 n p2 :
  Forall ascii_ws p1 -> Forall ascii_ws p2 ->
  record !! i = Some (num_field p1 n p2) ->
  field_uint max record i = if (n <=? max)%N then Some n else None.
Proof.
  intros H1 H2 Hi. unfold field_uint. rewrite Hi. simpl.
  by apply parse_num_field.
Qed.

Lemma from_str_parse_all rows : forall ts s,
  parse_all parse_f64 rows = Some ts ->
  from_str parse_f64 s rows = option_map (fun s' => (s', true)) (run s ts).
Proof.
  induction rows as [|[r|] rows IH]; intros ts s Hp; simpl in Hp.
  - by injection Hp as <-.
  - simpl. destruct (parse_record parse_f64 r) as [[t|]|]; simpl in Hp; [| |discriminate];
      destruct (parse_all parse_f64 rows) as [ts'|] eqn:E; simpl in Hp;
      try discriminate; injection Hp as <-.
    + simpl. destruct (handle_record s t) as [s1|]; simpl; [|done]. by apply IH.
    + by apply IH.
  - discriminate.
Qed.

Lemma account_named_spec (es : list (Transaction F)) i :
  account_named es i = true <-> exists e, In e es /\ names_account e i.
Proof.
  unfold account_named. rewrite existsb_exists.
  split; intros [e [Hin He]]; exists e; split; auto;
    destruct e; simpl in *; try discriminate; try contradiction;
    by apply N.eqb_eq.
Qed.

Lemma client_rows_ids (s : Engine F) (p : N -> bool) (l : list nat) :
  ids_match s ->
  (forall i, (i < vlen (clients s))%N -> is_Some (get_client s i) <-> p i = true) ->
  (forall i, In i l -> (N.of_nat i < vlen (clients s))%N) ->
  map cid (omap (fun c => c)
        (map (fun i => default (vfill (clients s)) (vcells (clients s) !! N.of_nat i)) l))
  = List.filter p (map N.of_nat l).
Proof.
  intros Hm Hp. induction l as [|i l IH]; intros Hl; [done|].
  assert (Hi : (N.of_nat i < vlen (clients s))%N) by (apply Hl; left; done).
  assert (Hg : get_client s (N.of_nat i) =
               default (vfill (clients s)) (vcells (clients s) !! N.of_nat i)).
  { unfold get_client, rvec_get. apply N.ltb_lt in Hi. rewrite Hi.
    by destruct (default _ _). }
  pose proof (Hp _ Hi) as Hpi. rewrite Hg in Hpi.
  simpl. destruct (default _ _) as [c|] eqn:Ed; simpl.
  - assert (p (N.of_nat i) = true) as -> by (apply Hpi; done).
    simpl. rewrite (Hm (N.of_nat i) c) by (by rewrite Hg).
    f_equal. apply IH. intros j Hj. apply Hl. by right.
  - destruct (p (N.of_nat i)) eqn:Ep.
    + destruct (proj2 Hpi eq_refl) as [? Hx]. discriminate.
    + apply IH. intros j Hj. apply Hl. by right.
Qed.

Lemma client_rows_named (es : list (Transaction F)) (s : Engine F) :
  run engine_new es = Some s ->
  map cid (client_rows s) =
  List.filter (account_named es) (map N.of_nat (seq 0 (N.to_nat u16_MAX))).
Proof.
  intros Hr. pose proof (run_wf es _ _ engine_new_wf Hr) as (_ & Hc & _).
  unfold client_rows, rvec_to_list. rewrite Hc.
  apply client_rows_ids.
  - exact (run_ids_match es _ _ engine_new_ids_match Hr).
  - intros i _. rewrite account_named_spec, (run_accounts es _ _ i Hr), engine_new_no_client.
    split; [intros [[? ?]|?]; [discriminate|done]|auto].
  - intros i Hi. apply in_seq in Hi. rewrite Hc. unfold u16_MAX in *. lia.
Qed.

End ReadFacts.

Definition known_types : list string :=
  ["deposit"; "withdrawal"; "dispute"; "resolve"; "chargeback"].

(** Extra X5: a record whose type field is none of the five names (the
    comparison is exact: no trimming, no case folding) is skipped: its
    parse returns [None] without a panic, whatever the other fields are,
    and the [from_str] / [read_file] loop goes on with the next record. *)
Theorem X5_unknown_type_skipped {F : Type} `{Amount F}
    (parse_f64 : list N -> option F) (ty : string) (rest : list string)
    (s : Engine F) (rows : list (option (list string))) :
  ~ In ty known_types ->
  parse_record parse_f64 (ty :: rest) = Some None /\
  from_str parse_f64 s (Some (ty :: rest) :: rows) = from_str parse_f64 s rows.
Proof.
  intros Hn.
  assert (Hk : forall k, In k known_types -> String.eqb ty k = false).
  { intros k Hk. apply String.eqb_neq. intros ->. contradiction. }
  assert (Hp : parse_record parse_f64 (ty :: rest) = Some None).
  { unfold parse_record. cbn -[field_uint field_f64 String.eqb].
    rewrite !Hk by (simpl; tauto). reflexivity. }
  split; [done|]. simpl. by rewrite Hp.
Qed.

Lemma X5_witness :
  parse_record (fun _ => Some 1.0%float) [" deposit"; "1"; "1"; "1.0"] = Some None /\
  parse_record (fun _ => Some 1.0%float) ["Deposit"; "1"; "1"; "1.0"] = Some None.
Proof.
  split.
  - refine (proj1 (X5_unknown_type_skipped _ _ _ engine_new [] _)).
    simpl. intuition discriminate.
  - refine (proj1 (X5_unknown_type_skipped _ _ _ engine_new [] _)).
    simpl. intuition discriminate.
Defined.

(** Extra X6: client and transaction ids written in decimal, with ASCII
    whitespace around them, parse back to their values for every value
    the fields' types hold ([0..=u16::MAX], [0..=u32::MAX]); fields after
    the third are ignored by Dispute, Resolve and Chargeback, and the
    fourth is the amount of a Deposit or Withdrawal. *)
Theorem X6_decimal_fields_parse {F : Type} `{Amount F}
    (parse_f64 : list N -> option F) (p1 p2 p3 p4 : list N) (id tx : N)
    (rest : list string) :
  Forall ascii_ws p1 -> Forall ascii_ws p2 ->
  Forall ascii_ws p3 -> Forall ascii_ws p4 ->
  (id <= u16_MAX)%N -> (tx <= u32_MAX)%N ->
  parse_record parse_f64 ("dispute" :: num_field p1 id p2 :: num_field p3 tx p4 :: rest)
    = Some (Some (Dispute id tx)) /\
  parse_record parse_f64 ("resolve" :: num_field p1 id p2 :: num_field p3 tx p4 :: rest)
    = Some (Some (Resolve id tx)) /\
  parse_record parse_f64 ("chargeback" :: num_field p1 id p2 :: num_field p3 tx p4 :: rest)
    = Some (Some (Chargeback id tx)) /\
  (forall f3 rest' a, rest = f3 :: rest' -> parse_f64 (trim (chars f3)) = Some a ->
   parse_record parse_f64 ("deposit" :: num_field p1 id p2 :: num_field p3 tx p4 :: rest)
     = Some (Some (Deposit id tx a)) /\
   parse_record parse_f64 ("withdrawal" :: num_field p1 id p2 :: num_field p3 tx p4 :: rest)
     = Some (Some (Withdrawal id tx a))).
Proof.
  intros H1 H2 H3 H4 Hid Htx. apply N.leb_le in Hid. apply N.leb_le in Htx.
  assert (Hf : forall k, field_uint u16_MAX (k :: num_field p1 id p2 :: num_field p3 tx p4 :: rest) 1
                         = Some id /\
                         field_uint u32_MAX (k :: num_field p1 id p2 :: num_field p3 tx p4 :: rest) 2
                         = Some tx).
  { intros k. rewrite !(field_uint_num _ _ _ p1 id p2), !(field_uint_num _ _ 2 p3 tx p4),
      Hid, Htx by done. done. }
  unfold parse_record. cbn -[field_uint field_f64].
  do 3 (split; [by rewrite (proj1 (Hf _)), (proj2 (Hf _))|]).
  intros f3 rest' a -> Ha.
  split; rewrite (proj1 (Hf _)), (proj2 (Hf _)); simpl;
    unfold field_f64; simpl; by rewrite Ha.
Qed.

Lemma X6_witness :
  parse_record (fun _ => Some 2.5%float)
    ["dispute"; num_field [32%N] 65535 []; num_field [9%N] 7 [32; 32]%N; "0.5"]
  = Some (Some (Dispute 65535 7)).
Proof.
  refine (proj1 (X6_decimal_fields_parse _ [32%N] [] [9%N] [32; 32]%N 65535 7 ["0.5"] _ _ _ _ _ _)).
  all: first [unfold u16_MAX, u32_MAX; lia | repeat constructor].
Defined.

(** Extra X7: a known record whose client id is above [u16::MAX], or
    whose transaction id is above [u32::MAX], panics in [parse_record]
    (the [unwrap] of the failed parse), whatever the other fields hold. *)
Theorem X7_out_of_range_ids_panic {F : Type} `{Amount F}
    (parse_f64 : list N -> option F) (ty : string) (p1 p2 : list N)
    (id tx : N) (f1 : string) (rest : list string) :
  In ty known_types -> Forall ascii_ws p1 -> Forall ascii_ws p2 ->
  ((u16_MAX < id)%N -> parse_record parse_f64 (ty :: num_field p1 id p2 :: rest) = None) /\
  ((u32_MAX < tx)%N -> parse_record parse_f64 (ty :: f1 :: num_field p1 tx p2 :: rest) = None).
Proof.
  intros Hty H1 H2. split; intros Hlt; apply N.leb_gt in Hlt.
  - assert (Hf : forall k, field_uint u16_MAX (k :: num_field p1 id p2 :: rest) 1 = None).
    { intros k. by rewrite (field_uint_num _ _ _ p1 id p2), Hlt. }
    unfold known_types in Hty. simpl in Hty.
    repeat destruct Hty as [<-|Hty]; try contradiction;
      unfold parse_record; cbn -[field_uint field_f64]; by rewrite Hf.
  - assert (Hf : forall k, field_uint u32_MAX (k :: f1 :: num_field p1 tx p2 :: rest) 2 = None).
    { intros k. by rewrite (field_uint_num _ _ _ p1 tx p2), Hlt. }
    unfold known_types in Hty. simpl in Hty.
    repeat destruct Hty as [<-|Hty]; try contradiction;
      unfold parse_record; cbn -[field_uint field_f64];
      (destruct (field_uint u16_MAX _ 1); [simpl; by rewrite Hf|done]).
Qed.

Lemma X7_witness :
  parse_record (fun _ => Some 1.0%float) ["dispute"; num_field [] 65536 []; "1"] = None /\
  parse_record (fun _ => Some 1.0%float) ["deposit"; "x"; num_field [32%N] 4294967296 []; "1.0"] = None.
Proof.
  split.
  - refine (proj1 (X7_out_of_range_ids_panic _ "dispute" [] [] 65536 0 "" ["1"] _ _ _) _).
    all: first [unfold u16_MAX; lia | simpl; tauto | constructor].
  - refine (proj2 (X7_out_of_range_ids_panic _ "deposit" [32%N] [] 0 4294967296 "x" ["1.0"] _ _ _) _).
    all: first [unfold u32_MAX; lia | simpl; tauto | repeat constructor].
Defined.

(** Extra X8: a Deposit or Withdrawal record with fewer than four fields
    panics in [parse_record] ([record[3]] is out of bounds), even when its
    ids parse; Dispute, Resolve and Chargeback never read a fourth field. *)
Theorem X8_deposit_withdrawal_need_amount {F : Type} `{Amount F}
    (parse_f64 : list N -> option F) (rest : list string) :
  (length rest <= 2)%nat ->
  parse_record parse_f64 ("deposit" :: rest) = None /\
  parse_record parse_f64 ("withdrawal" :: rest) = None.
Proof.
  intros Hl.
  assert (Hf : field_f64 parse_f64 ("deposit" :: rest) 3 = None /\
               field_f64 parse_f64 ("withdrawal" :: rest) 3 = None).
  { unfold field_f64. rewrite !lookup_ge_None_2 by (simpl; lia). done. }
  unfold parse_record. cbn -[field_uint field_f64].
  split; destruct (field_uint u16_MAX _ 1); simpl; try done;
    destruct (field_uint u32_MAX _ 2); simpl; try done;
    by rewrite (proj1 Hf) || rewrite (proj2 Hf).
Qed.

Lemma X8_witness :
  parse_record (fun _ => Some 1.0%float) ["deposit"; "1"; "1"] = None.
Proof.
  refine (proj1 (X8_deposit_withdrawal_need_amount _ ["1"; "1"] _)). simpl. lia.
Defined.

(** Extra X9: when every record of a csv parses (no [Err], no panic in
    [parse_record]), the [from_str] / [read_file] loop handles exactly the
    parsed transactions in order, records of an unknown type left out: it
    panics when that run panics, and otherwise returns [Ok(())] with the
    engine the run gives. *)
Theorem X9_from_str_runs_parsed {F : Type} `{Amount F}
    (parse_f64 : list N -> option F) (rows : list (option (list string)))
    (ts : list (Transaction F)) (s : Engine F) :
  parse_all parse_f64 rows = Some ts ->
  from_str parse_f64 s rows = option_map (fun s' => (s', true)) (run s ts).
Proof. apply from_str_parse_all. Qed.

Lemma X9_witness :
  from_str (fun _ => Some 1.0%float) engine_new
    [Some ["deposit"; "1"; "1"; "1.0"]; Some ["refund"; "1"; "1"]; Some ["dispute"; "1"; " 1 "]]
  = option_map (fun s' => (s', true))
      (run engine_new [Deposit 1 1 1.0%float; Dispute 1 1]).
Proof.
  apply X9_from_str_runs_parsed. vm_compute. reflexivity.
Defined.

(** Extra X10: the [from_str] / [read_file] loop composes over
    consecutive records: the records after a prefix run on the engine the
    prefix leaves, unless the prefix panicked or hit an [Err].  In
    particular a record [Err] returns [Err] with the effects of the
    records before it kept and the records after it ignored. *)
Theorem X10_from_str_app {F : Type} `{Amount F}
    (parse_f64 : list N -> option F) (s : Engine F)
    (rows1 rows2 : list (option (list string))) :
  from_str parse_f64 s (rows1 ++ rows2) =
    match from_str parse_f64 s rows1 with
    | Some (s1, true) => from_str parse_f64 s1 rows2
    | r => r
    end /\
  from_str parse_f64 s (rows1 ++ None :: rows2) =
    match from_str parse_f64 s rows1 with
    | Some (s1, true) => Some (s1, false)
    | r => r
    end.
Proof.
  assert (Happ : forall rows2 s, from_str parse_f64 s (rows1 ++ rows2) =
    match from_str parse_f64 s rows1 with
    | Some (s1, true) => from_str parse_f64 s1 rows2
    | r => r
    end).
  { induction rows1 as [|[r|] rows1 IH]; intros rs s'; simpl; [done| |done].
    destruct (parse_record parse_f64 r) as [[t|]|]; simpl; [|apply IH|done].
    destruct (handle_record s' t); simpl; [apply IH|done]. }
  split; [apply Happ|]. rewrite Happ.
  by destruct (from_str parse_f64 s rows1) as [[s1 []]|].
Qed.

(** Extra X11: in every state reached from [Engine::new], the client
    rows [dump_clients] prints are, in order, those of the ids named by a
    Deposit or Withdrawal of the run, in increasing order and each once. *)
Theorem X11_dump_rows_named_ascending {F : Type} `{Amount F}
    (es : list (Transaction F)) (s : Engine F) :
  run engine_new es = Some s ->
  map cid (client_rows s) =
  List.filter (account_named es) (map N.of_nat (seq 0 (N.to_nat u16_MAX))).
Proof. apply client_rows_named. Qed.

Lemma X11_witness : exists s,
  run engine_new [Deposit 5 1 1.0%float; Deposit 2 2 1.0%float; Dispute 9 1;
                  Withdrawal 5 3 0.5%float] = Some s /\
  In 5%N (map cid (client_rows s)) /\ ~ In 9%N (map cid (client_rows s)).
Proof.
  destruct (run engine_new [Deposit 5 1 1.0%float; Deposit 2 2 1.0%float; Dispute 9 1;
                            Withdrawal 5 3 0.5%float]) as [s|] eqn:E; [|refute_none].
  exists s. split; [reflexivity|].
  rewrite (X11_dump_rows_named_ascending _ s E), !filter_In. split.
  - split; [|reflexivity]. apply in_map_iff. exists 5%nat.
    split; [reflexivity|]. apply in_seq. unfold u16_MAX. lia.
  - intros [_ Hf]. discriminate Hf.
Defined.

(** Extra X12: when every record of the input file parses and handling
    them does not panic, [main] prints the header line and then one
    [Display] line per client, for exactly the ids named by a parsed
    Deposit or Withdrawal, in increasing order. *)
Theorem X12_main_prints_named_clients {F : Type} `{Amount F}
    (parse_f64 : list N -> option F) (fmt4 : F -> string)
    (rows : list (option (list string))) (ts : list (Transaction F)) (s : Engine F) :
  parse_all parse_f64 rows = Some ts -> run engine_new ts = Some s ->
  main_output parse_f64 fmt4 rows =
    Some (Some ("client, available, held, total, locked" ::
                map (client_display fmt4) (client_rows s))) /\
  map cid (client_rows s) =
  List.filter (account_named ts) (map N.of_nat (seq 0 (N.to_nat u16_MAX))).
Proof.
  intros Hp Hr. split; [|by apply client_rows_named].
  unfold main_output. by rewrite (from_str_parse_all _ rows ts engine_new Hp), Hr.
Qed.

Lemma X12_witness : exists s,
  run engine_new [Deposit 3 1 1.0%float; Withdrawal 3 2 1.0%float] = Some s /\
  main_output (fun _ => Some 1.0%float) (fun _ => "x")
    [Some ["deposit"; "3"; "1"; "1.0"]; Some ["type"; "client"; "tx"];
     Some ["withdrawal"; "3"; "2"; "1.0"]]
  = Some (Some ("client, available, held, total, locked" ::
                map (client_display (fun _ => "x")) (client_rows s))) /\
  In 3%N (map cid (client_rows s)).
Proof.
  destruct (run engine_new [Deposit 3 1 1.0%float; Withdrawal 3 2 1.0%float])
    as [s|] eqn:E; [|refute_none].
  assert (Hp : parse_all (fun _ => Some 1.0%float)
      [Some ["deposit"; "3"; "1"; "1.0"]; Some ["type"; "client"; "tx"];
       Some ["withdrawal"; "3"; "2"; "1.0"]]
      = Some [Deposit 3 1 1.0%float; Withdrawal 3 2 1.0%float])
    by (vm_compute; reflexivity).
  destruct (X12_main_prints_named_clients _ (fun _ => "x") _ _ s Hp E) as [Hm Hc].
  exists s. split; [reflexivity|]. split; [exact Hm|].
  rewrite Hc, filter_In. split; [|reflexivity].
  apply in_map_iff. exists 3%nat. split; [reflexivity|].
  apply in_seq. unfold u16_MAX. lia.
Defined.
